(** * Circuit breaker unit: a shallow embedding and its properties

    The development follows the class [CircuitBreaker] of
    [circuit-breaker.unit.ts].  The breaker keeps every mutable field behind
    the [State] store it receives at construction ([this.props.state.get] /
    [.set]); the configuration ([failureThreshold], [timeoutMs],
    [halfOpenSuccessThreshold]) is immutable.  Each method is embedded as a
    computation that threads the store, and every [Date.now()] call site is
    an explicit argument of the method that contains it.

    The repository holds two copies of the class.  Their methods are the
    same line for line; they differ in how [create] derives the identifier
    of the store: a static method [safeId] that hashes the url, or a chain
    of [replace] calls written inline.  Both derivations are embedded
    ([safeId], [inlineSafeId]).

    Numbers are integers ([Z]): counters, millisecond clock readings and the
    three configuration values, in the range where JavaScript's arithmetic
    on them is exact. *)

From Stdlib Require Import ZArith Lia List Ascii String.
From Stdlib Require Import Hexadecimal HexadecimalString HexadecimalFacts.
From Stdlib Require Import HexadecimalPos HexadecimalN.
From stdpp Require Import gmap strings list fin_maps.

Local Open Scope Z_scope.

(** ** Store values

    What the breaker writes into the store: [null], numbers (counters and
    millisecond timestamps, all integers) and strings (the state tag and the
    url).  [undefined] is the answer of [get] on a key that was never set,
    so a read has type [option value]. *)

Inductive value : Type :=
  | VNull
  | VNum (n : Z)
  | VStr (s : string).

#[global] Instance value_eq_dec : EqDecision value.
Proof. solve_decision. Defined.

(** The store of [@synet/state]: [get(key)] is a lookup that answers
    [undefined] on a missing key, [set(key, v)] overwrites the key. *)
Abbreviation State := (gmap string value).

(** ** The computation type

    A method body reads and writes the store.  [None] is reserved for a
    read whose run-time value contradicts the type argument of the call
    ([get<number>] finding a string): the source would go on with
    JavaScript's coercions, which the embedding does not model. *)

Definition M (A : Type) : Type := State → option (A * State).

#[global] Instance M_ret : MRet M := λ A a s, Some (a, s).

#[global] Instance M_bind : MBind M := λ A B f m s,
  match m s with
  | Some (a, s') => f a s'
  | None => None
  end.

Definition get (key : string) : M (option value) :=
  λ s, Some (s !! key, s).

Definition set (key : string) (v : value) : M unit :=
  λ s, Some (tt, <[key := v]> s).

(** [get<number>(key)]: [None] inside the monad's answer stands for a
    nullish result ([undefined] or [null]). *)
Definition get_number (key : string) : M (option Z) :=
  λ s, match s !! key with
       | None | Some VNull => Some (None, s)
       | Some (VNum n) => Some (Some n, s)
       | Some (VStr _) => None
       end.

(** [x ?? d] *)
Definition nullish {A} (x : option A) (d : A) : A :=
  match x with Some a => a | None => d end.

(** [v ?? d] on a raw store read: [null] and [undefined] both take [d]. *)
Definition nullish_value (x : option value) (d : value) : value :=
  match x with
  | None | Some VNull => d
  | Some v => v
  end.

(** Truthiness of a number-or-nullish read: [0], [null] and [undefined]
    are falsy. *)
Definition truthy (x : option Z) : bool :=
  match x with
  | Some n => negb (n =? 0)
  | None => false
  end.

(** [a === b] on store values. *)
Definition strict_eq (a b : value) : bool := bool_decide (a = b).

(** ** Configuration *)

Record CircuitBreakerConfig : Type := {
  cfg_url : string;
  cfg_failureThreshold : option Z;
  cfg_timeoutMs : option Z;
  cfg_halfOpenSuccessThreshold : option Z
}.

Record CircuitBreakerProps : Type := {
  dna_id : string;
  url : string;
  failureThreshold : Z;
  timeoutMs : Z;
  halfOpenSuccessThreshold : Z
}.

Definition CLOSED : value := VStr "CLOSED".
Definition OPEN : value := VStr "OPEN".
Definition HALF_OPEN : value := VStr "HALF_OPEN".

(** The snapshot returned by [getStats]. *)
Record Stats : Type := {
  stat_url : string;
  stat_state : value;
  stat_failures : value;
  stat_lastFailure : option value;
  stat_successCount : value;
  stat_openedAt : option value;
  stat_failureThreshold : Z;
  stat_timeoutMs : Z;
  stat_halfOpenSuccessThreshold : Z
}.

(** ** Methods *)

Section Methods.

Variable props : CircuitBreakerProps.

Definition getCircuitState : M value :=
  v ← get "state";
  mret (nullish_value v CLOSED).

Definition resetCircuit : M unit :=
  set "state" CLOSED;;
  set "failures" (VNum 0);;
  set "lastFailure" VNull;;
  set "successCount" (VNum 0);;
  set "openedAt" VNull.

(** [now] is the value of the [Date.now()] call in the body. *)
Definition openCircuit (now : Z) : M unit :=
  set "state" OPEN;;
  set "openedAt" (VNum now);;
  set "successCount" (VNum 0).

(** [now] is what [Date.now()] answers if the guard gets to evaluate
    it. *)
Definition canProceed (now : Z) : M bool :=
  currentState ← getCircuitState;
  if strict_eq currentState CLOSED then mret true
  else if strict_eq currentState OPEN then
    openedAt ← get_number "openedAt";
    if truthy openedAt && (timeoutMs props <=? now - nullish openedAt 0) then
      set "state" HALF_OPEN;;
      set "successCount" (VNum 0);;
      mret true
    else mret false
  else if strict_eq currentState HALF_OPEN then mret true
  else mret false.

Definition recordSuccess : M unit :=
  currentState ← getCircuitState;
  if strict_eq currentState HALF_OPEN then
    c ← get_number "successCount";
    let successCount := nullish c 0 + 1 in
    set "successCount" (VNum successCount);;
    if halfOpenSuccessThreshold props <=? successCount then resetCircuit
    else mret tt
  else if strict_eq currentState CLOSED then
    set "failures" (VNum 0);;
    set "lastFailure" VNull
  else mret tt.

(** [now] is the [Date.now()] stored under [lastFailure]; [nowOpen] is
    the later [Date.now()] of [openCircuit], when it runs. *)
Definition recordFailure (now nowOpen : Z) : M unit :=
  f ← get_number "failures";
  let failures := nullish f 0 + 1 in
  set "failures" (VNum failures);;
  set "lastFailure" (VNum now);;
  currentState ← getCircuitState;
  if strict_eq currentState HALF_OPEN then openCircuit nowOpen
  else if failureThreshold props <=? failures then openCircuit nowOpen
  else mret tt.

(** The object literal of [getStats]; the nested [config] object is
    flattened into the three [stat_*Threshold]/[stat_timeoutMs] fields. *)
Definition getStats : M Stats :=
  st ← getCircuitState;
  f ← get "failures";
  lf ← get "lastFailure";
  sc ← get "successCount";
  oa ← get "openedAt";
  mret {| stat_url := url props;
          stat_state := st;
          stat_failures := nullish_value f (VNum 0);
          stat_lastFailure := lf;
          stat_successCount := nullish_value sc (VNum 0);
          stat_openedAt := oa;
          stat_failureThreshold := failureThreshold props;
          stat_timeoutMs := timeoutMs props;
          stat_halfOpenSuccessThreshold := halfOpenSuccessThreshold props |}.

End Methods.

(** ** Identifier derivation

    [safeId] hashes the UTF-16 code units of the url with 32-bit wrap-around
    and prints the absolute value in hexadecimal, padded to 8 digits. *)

(** [ToInt32]: the signed 32-bit integer congruent to [z]. *)
Definition toInt32 (z : Z) : Z := (z + 2 ^ 31) mod 2 ^ 32 - 2 ^ 31.

(** [a << n] on 32-bit integers. *)
Definition shl32 (a n : Z) : Z := toInt32 (Z.shiftl (toInt32 a) n).

(** [a & b] on 32-bit integers. *)
Definition and32 (a b : Z) : Z := toInt32 (Z.land (toInt32 a) (toInt32 b)).

(** One iteration of the loop body. *)
Definition hashStep (hash char : Z) : Z :=
  let hash := (shl32 hash 5 - hash) + char in
  and32 hash hash.

Definition hashLoop (units : list Z) : Z := fold_left hashStep units 0.

(** [s.charCodeAt(i)] for every [i]: a character of a Rocq string stands
    for the code unit of the same number. *)
Definition charCodes (s : string) : list Z :=
  map (λ c, Z.of_N (N_of_ascii c)) (list_ascii_of_string s).

(** [n.toString(16)] for a non-negative integer [n]. *)
Definition toString16 (n : Z) : string :=
  NilZero.string_of_uint (N.to_hex_uint (Z.to_N n)).

(** [s.padStart(n, c)] with a one-character filler. *)
Definition padStart (n : nat) (c : ascii) (s : string) : string :=
  string_of_list_ascii (repeat c (n - String.length s)) +:+ s.

Definition safeId_units (units : list Z) : string :=
  let hash := hashLoop units in
  let hexHash := padStart 8 "0" (toString16 (Z.abs hash)) in
  hexHash.

Definition safeId (url : string) : string := safeId_units (charCodes url).

(** Every character of [s] passes the test [p]. *)
Fixpoint allChars (p : ascii → bool) (s : string) : bool :=
  match s with
  | EmptyString => true
  | String c s' => p c && allChars p s'
  end.

(** The characters of [/[a-f0-9]/]. *)
Definition isHexDigit (c : ascii) : bool :=
  let n := nat_of_ascii c in
  ((48 <=? n) && (n <=? 57) || (97 <=? n) && (n <=? 102))%nat.

(** The hexadecimal digit of value [m] put in front of [u]. *)
Definition hexDigitOf (m : N) (u : Hexadecimal.uint) : Hexadecimal.uint :=
  match m with
  | 0 => D0 u | 1 => D1 u | 2 => D2 u | 3 => D3 u
  | 4 => D4 u | 5 => D5 u | 6 => D6 u | 7 => D7 u
  | 8 => D8 u | 9 => D9 u | 10 => Da u | 11 => Db u
  | 12 => Dc u | 13 => Dd u | 14 => De u | _ => Df u
  end%N.

(** The [k] low hexadecimal digits of [n], lowest first. *)
Fixpoint lowDigits (k : nat) (n : N) : Hexadecimal.uint :=
  match k with
  | O => Nil
  | S k' => hexDigitOf (n mod 16) (lowDigits k' (n / 16))
  end.

(** The other derivation, written inline in [create] of
    [src/circuit-breaker.unit.ts]: a chain of four [replace] calls under the
    prefix [circuit-]. *)

Definition isAlnum (c : ascii) : bool :=
  let n := nat_of_ascii c in
  ((48 <=? n) && (n <=? 57) || (65 <=? n) && (n <=? 90)
   || (97 <=? n) && (n <=? 122))%nat.

(** [Some rest] when [s] is [p] followed by [rest]. *)
Fixpoint dropPrefix (p s : string) : option string :=
  match p, s with
  | EmptyString, _ => Some s
  | String a p', String b s' =>
      if Ascii.eqb a b then dropPrefix p' s' else None
  | String _ _, EmptyString => None
  end.

(** [.replace(/https?:\/\//, '')]: the leftmost match is removed. *)
Fixpoint replaceScheme (s : string) : string :=
  match dropPrefix "https://" s, dropPrefix "http://" s with
  | Some rest, _ => rest
  | None, Some rest => rest
  | None, None =>
      match s with
      | EmptyString => EmptyString
      | String c s' => String c (replaceScheme s')
      end
  end.

(** [.replace(/[^a-zA-Z0-9]/g, '-')] *)
Fixpoint replaceNonAlnum (s : string) : string :=
  match s with
  | EmptyString => EmptyString
  | String c s' => String (if isAlnum c then c else "-"%char) (replaceNonAlnum s')
  end.

(** [.replace(/-+/g, '-')] *)
Fixpoint collapseDashes (s : string) : string :=
  match s with
  | EmptyString => EmptyString
  | String c s' =>
      match s' with
      | String d _ =>
          if Ascii.eqb c "-" && Ascii.eqb d "-" then collapseDashes s'
          else String c (collapseDashes s')
      | EmptyString => String c EmptyString
      end
  end.

Fixpoint dropTrailingDash (s : string) : string :=
  match s with
  | EmptyString => EmptyString
  | String c EmptyString => if Ascii.eqb c "-" then EmptyString else s
  | String c s' => String c (dropTrailingDash s')
  end.

(** [.replace(/^-|-$/g, '')] *)
Definition trimDashes (s : string) : string :=
  match s with
  | String c s' => if Ascii.eqb c "-" then dropTrailingDash s' else dropTrailingDash s
  | EmptyString => EmptyString
  end.

Definition inlineSafeId (url : string) : string :=
  "circuit-" +:+ trimDashes (collapseDashes (replaceNonAlnum (replaceScheme url))).

(** The characters the inline derivation lets through: [a-zA-Z0-9] and
    the dash. *)
Definition isIdChar (c : ascii) : bool := isAlnum c || Ascii.eqb c "-".

(** [s] starts with a dash. *)
Definition startsWithDash (s : string) : bool :=
  match s with
  | String c _ => Ascii.eqb c "-"
  | EmptyString => false
  end.

(** [s] ends with a dash. *)
Fixpoint endsWithDash (s : string) : bool :=
  match s with
  | EmptyString => false
  | String c EmptyString => Ascii.eqb c "-"
  | String _ s' => endsWithDash s'
  end.

(** [s] has two dashes in a row. *)
Fixpoint hasDoubleDash (s : string) : bool :=
  match s with
  | EmptyString => false
  | String c s' => Ascii.eqb c "-" && startsWithDash s' || hasDoubleDash s'
  end.

(** ** Construction *)

Record CircuitBreaker : Type := {
  props : CircuitBreakerProps;
  stateId : string;
  state : State
}.

(** [createState(id, initial)]: a store holding the initial values. *)
Definition createState (id : string) (initial : State) : string * State :=
  (id, initial).

Section Create.

(** The identifier derivation in use: [safeId] or [inlineSafeId]. *)
Variable deriveId : string → string.

Definition create_with (config : CircuitBreakerConfig) : CircuitBreaker :=
  let safeId := deriveId (cfg_url config) in
  let st :=
    createState safeId
      (<["openedAt" := VNull]>
       (<["successCount" := VNum 0]>
        (<["lastFailure" := VNull]>
         (<["failures" := VNum 0]>
          (<["state" := CLOSED]>
           (<["url" := VStr (cfg_url config)]> ∅)))))) in
  {| props :=
       {| dna_id := "circuit-breaker-" +:+ safeId;
          url := cfg_url config;
          failureThreshold := nullish (cfg_failureThreshold config) 5;
          timeoutMs := nullish (cfg_timeoutMs config) 30000;
          halfOpenSuccessThreshold :=
            nullish (cfg_halfOpenSuccessThreshold config) 1 |};
     stateId := fst st;
     state := snd st |}.

End Create.

Definition create : CircuitBreakerConfig → CircuitBreaker := create_with safeId.

Definition create_inline : CircuitBreakerConfig → CircuitBreaker :=
  create_with inlineSafeId.

(** ** Reading the store

    Pure views of the store, used to state what a method did. *)

(** The state the breaker is in: what [getCircuitState] answers. *)
Definition circuitState (s : State) : value := nullish_value (s !! "state") CLOSED.

(** A number-typed key read as the source reads it: nullish or a number. *)
Definition numberAt (key : string) (s : State) : option (option Z) :=
  match s !! key with
  | None | Some VNull => Some None
  | Some (VNum n) => Some (Some n)
  | Some (VStr _) => None
  end.

(** A timestamp is absent when its read is [null] or [undefined]. *)
Definition absent (x : option value) : Prop := x = None ∨ x = Some VNull.

(** The store after the two unconditional writes of [recordFailure]. *)
Definition failureNoted (now : Z) (f : option Z) (s : State) : State :=
  <["lastFailure" := VNum now]> (<["failures" := VNum (nullish f 0 + 1)]> s).

(** The store after the three writes of [openCircuit]. *)
Definition opened (now : Z) (s : State) : State :=
  <["successCount" := VNum 0]> (<["openedAt" := VNum now]> (<["state" := OPEN]> s)).

(** The store after the five writes of [resetCircuit]. *)
Definition closed (s : State) : State :=
  <["openedAt" := VNull]> (<["successCount" := VNum 0]>
    (<["lastFailure" := VNull]> (<["failures" := VNum 0]> (<["state" := CLOSED]> s)))).

(** ** Sequences of calls *)

(** [recordFailure] called once per element, with the two clock readings
    of that call. *)
Fixpoint recordFailures (P : CircuitBreakerProps) (ts : list (Z * Z)) : M unit :=
  match ts with
  | [] => mret tt
  | (now, nowOpen) :: ts' => recordFailure P now nowOpen;; recordFailures P ts'
  end.

(** [recordSuccess] called [n] times. *)
Fixpoint recordSuccesses (P : CircuitBreakerProps) (n : nat) : M unit :=
  match n with
  | O => mret tt
  | S n' => recordSuccess P;; recordSuccesses P n'
  end.

(** The store of a breaker that is fully reset. *)
Definition fullyReset (s : State) : Prop :=
  s !! "state" = Some CLOSED
  ∧ s !! "failures" = Some (VNum 0)
  ∧ s !! "successCount" = Some (VNum 0)
  ∧ s !! "lastFailure" = Some VNull
  ∧ s !! "openedAt" = Some VNull.

(** ** Reachable stores *)

(** One call of a state-changing method. *)
Inductive step (P : CircuitBreakerProps) (s s' : State) : Prop :=
  | step_canProceed now b : canProceed P now s = Some (b, s') → step P s s'
  | step_recordSuccess : recordSuccess P s = Some (tt, s') → step P s s'
  | step_recordFailure now nowOpen :
      recordFailure P now nowOpen s = Some (tt, s') → step P s s'
  | step_resetCircuit : resetCircuit s = Some (tt, s') → step P s s'.

(** The stores a breaker can be in after any number of calls. *)
Definition reachable (cb : CircuitBreaker) (s : State) : Prop :=
  rtc (step (props cb)) (state cb) s.

(** What every reachable store satisfies: the state tag is one of the
    three, the number-typed keys hold numbers or are nullish, and outside
    CLOSED the failure count has reached the threshold. *)
Record wellFormed (P : CircuitBreakerProps) (s : State) : Prop := {
  wf_state : circuitState s = CLOSED ∨ circuitState s = OPEN
             ∨ circuitState s = HALF_OPEN;
  wf_failures : ∃ f, s !! "failures" = Some (VNum f)
                     ∧ (circuitState s ≠ CLOSED → failureThreshold P ≤ f);
  wf_successCount : is_Some (numberAt "successCount" s);
  wf_openedAt : is_Some (numberAt "openedAt" s)
}.

(** The three forms of a store that the breaker itself produces: what
    each key holds in each state. *)
Inductive shape (P : CircuitBreakerProps) (s : State) : Prop :=
  | shape_closed f :
      s !! "state" = Some CLOSED →
      s !! "failures" = Some (VNum f) →
      (f = 0 ∧ s !! "lastFailure" = Some VNull
       ∨ 0 < f < failureThreshold P ∧ ∃ t, s !! "lastFailure" = Some (VNum t)) →
      s !! "successCount" = Some (VNum 0) →
      s !! "openedAt" = Some VNull →
      shape P s
  | shape_open f tl t :
      s !! "state" = Some OPEN →
      s !! "failures" = Some (VNum f) →
      failureThreshold P ≤ f → 0 < f →
      s !! "lastFailure" = Some (VNum tl) →
      s !! "successCount" = Some (VNum 0) →
      s !! "openedAt" = Some (VNum t) →
      shape P s
  | shape_half_open f tl t c :
      s !! "state" = Some HALF_OPEN →
      s !! "failures" = Some (VNum f) →
      failureThreshold P ≤ f → 0 < f →
      s !! "lastFailure" = Some (VNum tl) →
      s !! "successCount" = Some (VNum c) →
      0 ≤ c → (0 < c → c < halfOpenSuccessThreshold P) →
      s !! "openedAt" = Some (VNum t) →
      shape P s.

(** One call of [canProceed], [recordSuccess] or [recordFailure]. *)
Definition call (P : CircuitBreakerProps) (s s' : State) : Prop :=
  (∃ now b, canProceed P now s = Some (b, s'))
  ∨ recordSuccess P s = Some (tt, s')
  ∨ (∃ now nowOpen, recordFailure P now nowOpen s = Some (tt, s')).

(** The keys the methods write. *)
Definition breakerKeys : list string :=
  ["state"; "failures"; "lastFailure"; "successCount"; "openedAt"].

(** ** A worked breaker *)

Definition exampleConfig : CircuitBreakerConfig :=
  {| cfg_url := "https://api.example.com";
     cfg_failureThreshold := Some 2;
     cfg_timeoutMs := Some 100;
     cfg_halfOpenSuccessThreshold := Some 2 |}.

Definition exampleBreaker : CircuitBreaker := create exampleConfig.

(** A store with the six keys of [create]. *)
Definition storeOf (st : value) (failures : Z) (lastFailure : value)
    (successCount : Z) (openedAt : value) : State :=
  list_to_map
    [("url", VStr "https://api.example.com"); ("state", st);
     ("failures", VNum failures); ("lastFailure", lastFailure);
     ("successCount", VNum successCount); ("openedAt", openedAt)].

(** The example breaker after failures at times 10 and 11. *)
Definition exampleOpen : State := storeOf OPEN 2 (VNum 11) 0 (VNum 11).

(** The same after the timeout: [canProceed] at time 200. *)
Definition exampleHalfOpen : State := storeOf HALF_OPEN 2 (VNum 11) 0 (VNum 11).

(** The example breaker opened by failures when the clock reads 0. *)
Definition exampleOpenAtZero : State := storeOf OPEN 2 (VNum 0) 0 (VNum 0).

(** A store whose state tag is not one of the three. *)
Definition exampleUnknown : State := storeOf (VStr "TRIPPED") 0 VNull 0 VNull.

(** A configuration with a threshold of 0. *)
Definition zeroThresholdConfig : CircuitBreakerConfig :=
  {| cfg_url := "https://api.example.com"; cfg_failureThreshold := Some 0;
     cfg_timeoutMs := None; cfg_halfOpenSuccessThreshold := None |}.

Definition configFor (u : string) : CircuitBreakerConfig :=
  {| cfg_url := u; cfg_failureThreshold := None; cfg_timeoutMs := None;
     cfg_halfOpenSuccessThreshold := None |}.

(** * Proofs *)

(** ** Running a method body *)

Lemma getCircuitState_run (s : State) :
  getCircuitState s = Some (circuitState s, s).
Proof. reflexivity. Qed.

Lemma get_number_run key (s : State) x :
  numberAt key s = Some x → get_number key s = Some (x, s).
Proof.
  unfold numberAt, get_number.
  destruct (s !! key) as [[| n | t] |]; intros; simplify_eq; done.
Qed.

Lemma circuitState_lookup (s : State) v :
  s !! "state" = Some v → v ≠ VNull → circuitState s = v.
Proof. unfold circuitState. intros ->. by destruct v. Qed.

Lemma circuitState_insert_ne (s : State) key v :
  key ≠ "state" → circuitState (<[key := v]> s) = circuitState s.
Proof. intros. unfold circuitState. by simplify_map_eq. Qed.

Lemma numberAt_insert key n (s : State) :
  numberAt key (<[key := VNum n]> s) = Some (Some n).
Proof. unfold numberAt. by simplify_map_eq. Qed.

Lemma numberAt_failures (s : State) f :
  s !! "failures" = Some (VNum f) → numberAt "failures" s = Some (Some f).
Proof. unfold numberAt. by intros ->. Qed.

Lemma strict_eq_true (a : value) : strict_eq a a = true.
Proof. by apply bool_decide_eq_true. Qed.

Lemma strict_eq_false (a b : value) : a ≠ b → strict_eq a b = false.
Proof. by apply bool_decide_eq_false. Qed.

(** Decide the comparisons of a known state tag with the three tags. *)
Ltac tags H :=
  repeat (rewrite strict_eq_true in H
          || rewrite strict_eq_false in H by done).

(** Unfold one method body down to store operations. *)
Ltac run_body :=
  unfold canProceed, recordSuccess, recordFailure, resetCircuit, openCircuit,
    getStats, getCircuitState, get, set, get_number, mbind, mret, M_bind, M_ret;
  cbn beta iota.

(** Compute the views of a store built by inserts. *)
Ltac views :=
  unfold circuitState, numberAt, opened, closed, failureNoted in *;
  simplify_map_eq.

Lemma openCircuit_run now (s : State) : openCircuit now s = Some (tt, opened now s).
Proof. reflexivity. Qed.

Lemma resetCircuit_run (s : State) : resetCircuit s = Some (tt, closed s).
Proof. reflexivity. Qed.

Lemma recordFailure_run P now nowOpen (s : State) f :
  numberAt "failures" s = Some f →
  recordFailure P now nowOpen s =
    Some (tt, if strict_eq (circuitState s) HALF_OPEN
                 || (failureThreshold P <=? nullish f 0 + 1)
              then opened nowOpen (failureNoted now f s)
              else failureNoted now f s).
Proof.
  intros Hf. unfold recordFailure, mbind, M_bind.
  rewrite (get_number_run _ _ _ Hf). cbn [set].
  rewrite getCircuitState_run. fold (failureNoted now f s).
  replace (circuitState (failureNoted now f s)) with (circuitState s)
    by (unfold failureNoted; by rewrite !circuitState_insert_ne).
  destruct (strict_eq (circuitState s) HALF_OPEN); cbn [orb].
  - apply openCircuit_run.
  - destruct (failureThreshold P <=? nullish f 0 + 1); [apply openCircuit_run | done].
Qed.

Lemma recordSuccess_run P (s : State) c :
  numberAt "successCount" s = Some c →
  recordSuccess P s =
    Some (tt, if strict_eq (circuitState s) HALF_OPEN then
                let s1 := <["successCount" := VNum (nullish c 0 + 1)]> s in
                if halfOpenSuccessThreshold P <=? nullish c 0 + 1
                then closed s1 else s1
              else if strict_eq (circuitState s) CLOSED then
                <["lastFailure" := VNull]> (<["failures" := VNum 0]> s)
              else s).
Proof.
  intros Hc. unfold recordSuccess, mbind, M_bind.
  rewrite getCircuitState_run.
  destruct (strict_eq (circuitState s) HALF_OPEN).
  - rewrite (get_number_run _ _ _ Hc). cbn [set].
    destruct (halfOpenSuccessThreshold P <=? nullish c 0 + 1);
      [apply resetCircuit_run | done].
  - by destruct (strict_eq (circuitState s) CLOSED).
Qed.

Lemma canProceed_run P now (s : State) o :
  numberAt "openedAt" s = Some o →
  canProceed P now s =
    Some (if strict_eq (circuitState s) CLOSED then (true, s)
          else if strict_eq (circuitState s) OPEN then
            if truthy o && (timeoutMs P <=? now - nullish o 0)
            then (true, <["successCount" := VNum 0]> (<["state" := HALF_OPEN]> s))
            else (false, s)
          else if strict_eq (circuitState s) HALF_OPEN then (true, s)
          else (false, s)).
Proof.
  intros Ho. unfold canProceed, mbind, M_bind.
  rewrite getCircuitState_run.
  destruct (strict_eq (circuitState s) CLOSED); [done |].
  destruct (strict_eq (circuitState s) OPEN).
  - rewrite (get_number_run _ _ _ Ho).
    by destruct (truthy o && (timeoutMs P <=? now - nullish o 0)).
  - by destruct (strict_eq (circuitState s) HALF_OPEN).
Qed.

(** ** The invariant of reachable stores *)

Lemma wellFormed_create d (cfg : CircuitBreakerConfig) :
  wellFormed (props (create_with d cfg)) (state (create_with d cfg)).
Proof.
  split; cbn; views; eauto.
  eexists; split; [done |]. by intros [].
Qed.

(** Close one field of [wellFormed] once the views are computed. *)
Ltac wf_field :=
  first [ done | by eauto 6
        | eexists; (split; [done |]); intros ?; first [done | lia] ].

Lemma wellFormed_step P (s s' : State) :
  wellFormed P s → step P s s' → wellFormed P s'.
Proof.
  intros [Hst (f & Hf & Hth) [c Hc] [o Ho]] Hstep.
  pose proof (numberAt_failures _ _ Hf) as Hnf.
  destruct Hstep as [now b H | H | now nowOpen H | H].
  - rewrite (canProceed_run _ _ _ _ Ho) in H.
    destruct Hst as [Hst | [Hst | Hst]]; rewrite Hst in H, Hth; tags H;
      [| destruct (truthy o && _) |]; simplify_eq;
      split; views; rewrite ?Hst; wf_field.
  - rewrite (recordSuccess_run _ _ _ Hc) in H.
    destruct Hst as [Hst | [Hst | Hst]]; rewrite Hst in H, Hth; tags H;
      [| | cbn zeta in H; destruct (_ <=? _)]; simplify_eq;
      split; views; rewrite ?Hst; wf_field.
  - rewrite (recordFailure_run _ _ _ _ _ Hnf) in H. cbn [nullish] in H.
    destruct (failureThreshold P <=? f + 1) eqn:Hle;
      [apply Z.leb_le in Hle | apply Z.leb_gt in Hle];
      destruct Hst as [Hst | [Hst | Hst]]; rewrite Hst in H, Hth; tags H;
      cbn [orb] in H; simplify_eq;
      try (specialize (Hth ltac:(done)); try lia);
      split; views; rewrite ?Hst; wf_field.
  - rewrite resetCircuit_run in H. simplify_eq.
    split; views; wf_field.
Qed.

Lemma wellFormed_reachable cb (s : State) :
  wellFormed (props cb) (state cb) → reachable cb s → wellFormed (props cb) s.
Proof.
  intros Hinit Hreach. unfold reachable in Hreach.
  revert s Hreach. apply rtc_ind_r; [done |].
  intros y z _ Hyz IH. by apply (wellFormed_step _ y).
Qed.

(** On a well-formed store no method stops at an ill-typed read. *)
Lemma wellFormed_progress P (s : State) :
  wellFormed P s →
  (∀ now, is_Some (canProceed P now s))
  ∧ is_Some (recordSuccess P s)
  ∧ (∀ now nowOpen, is_Some (recordFailure P now nowOpen s))
  ∧ is_Some (resetCircuit s)
  ∧ is_Some (getStats P s).
Proof.
  intros [_ (f & Hf & _) [c Hc] [o Ho]].
  split; [intros now; by rewrite (canProceed_run _ _ _ _ Ho) |].
  split; [by rewrite (recordSuccess_run _ _ _ Hc) |].
  split; [| by split].
  intros now nowOpen.
  by rewrite (recordFailure_run _ _ _ _ _ (numberAt_failures _ _ Hf)).
Qed.

Lemma exampleOpen_reachable : reachable exampleBreaker exampleOpen.
Proof.
  unfold reachable.
  eapply rtc_l; [apply (step_recordFailure _ _ _ 10 10); vm_compute; reflexivity |].
  eapply rtc_l; [apply (step_recordFailure _ _ _ 11 11); vm_compute; reflexivity |].
  vm_compute. apply rtc_refl.
Qed.

Lemma exampleHalfOpen_reachable : reachable exampleBreaker exampleHalfOpen.
Proof.
  eapply rtc_r; [apply exampleOpen_reachable |].
  apply (step_canProceed _ _ _ 200 true). vm_compute. reflexivity.
Qed.

Lemma exampleOpenAtZero_reachable : reachable exampleBreaker exampleOpenAtZero.
Proof.
  unfold reachable.
  eapply rtc_l; [apply (step_recordFailure _ _ _ 0 0); vm_compute; reflexivity |].
  eapply rtc_l; [apply (step_recordFailure _ _ _ 0 0); vm_compute; reflexivity |].
  vm_compute. apply rtc_refl.
Qed.

(** ** Failures while OPEN *)

(** C1, as stated, fails: the example breaker, OPEN since time 11, records
    a failure at time 500 and its [openedAt] becomes 500. *)
Lemma recordFailure_open_openedAt_counterexample :
  reachable exampleBreaker exampleOpen
  ∧ circuitState exampleOpen = OPEN
  ∧ exampleOpen !! "openedAt" = Some (VNum 11)
  ∧ recordFailure (props exampleBreaker) 500 500 exampleOpen
      = Some (tt, storeOf OPEN 3 (VNum 500) 0 (VNum 500))
  ∧ storeOf OPEN 3 (VNum 500) 0 (VNum 500) !! "openedAt" ≠ exampleOpen !! "openedAt".
Proof.
  split; [apply exampleOpen_reachable |].
  repeat split; try (vm_compute; reflexivity).
  vm_compute. discriminate.
Qed.

(** C1 (amended). In every reachable OPEN store the failure count has
    reached the threshold, so [recordFailure] runs [openCircuit] again:
    [failures] grows by one, [lastFailure] and [openedAt] take the clock
    readings of this call, [successCount] is 0 and the state stays OPEN. *)
Theorem recordFailure_open_reopens (d : string → string)
    (cfg : CircuitBreakerConfig) (now nowOpen : Z) (s : State) :
  reachable (create_with d cfg) s →
  circuitState s = OPEN →
  ∃ f s', s !! "failures" = Some (VNum f)
    ∧ recordFailure (props (create_with d cfg)) now nowOpen s = Some (tt, s')
    ∧ s' !! "failures" = Some (VNum (f + 1))
    ∧ s' !! "lastFailure" = Some (VNum now)
    ∧ circuitState s' = OPEN
    ∧ s' !! "openedAt" = Some (VNum nowOpen)
    ∧ s' !! "successCount" = Some (VNum 0).
Proof.
  intros Hreach Hst.
  destruct (wellFormed_reachable _ _ (wellFormed_create d cfg) Hreach)
    as [_ (f & Hf & Hth) _ _].
  exists f. eexists. split; [done |]. split.
  - rewrite (recordFailure_run _ _ _ _ _ (numberAt_failures _ _ Hf)), Hst.
    cbn [nullish].
    replace (_ <=? f + 1) with true; [reflexivity |].
    symmetry. apply Z.leb_le. rewrite Hst in Hth. specialize (Hth ltac:(done)). lia.
  - views. done.
Qed.

Lemma recordFailure_open_reopens_witness :
  ∃ f s', exampleOpen !! "failures" = Some (VNum f)
    ∧ recordFailure (props exampleBreaker) 500 501 exampleOpen = Some (tt, s')
    ∧ s' !! "failures" = Some (VNum (f + 1))
    ∧ s' !! "lastFailure" = Some (VNum 500)
    ∧ circuitState s' = OPEN
    ∧ s' !! "openedAt" = Some (VNum 501)
    ∧ s' !! "successCount" = Some (VNum 0).
Proof.
  apply (recordFailure_open_reopens safeId exampleConfig 500 501 exampleOpen).
  - apply exampleOpen_reachable.
  - reflexivity.
Defined.

(** ** Identifier derivation *)

Lemma allChars_app p (s1 s2 : string) :
  allChars p (s1 +:+ s2) = allChars p s1 && allChars p s2.
Proof.
  induction s1 as [| c s1 IH]; [done |].
  change (String c s1 +:+ s2) with (String c (s1 +:+ s2)).
  cbn [allChars]. by rewrite IH, andb_assoc.
Qed.

Lemma string_of_uint_hex (u : Hexadecimal.uint) :
  allChars isHexDigit (NilEmpty.string_of_uint u) = true.
Proof. induction u; cbn [NilEmpty.string_of_uint allChars]; by rewrite ?IHu. Qed.

Lemma toString16_hex (n : Z) : allChars isHexDigit (toString16 n) = true.
Proof.
  unfold toString16, NilZero.string_of_uint.
  destruct (N.to_hex_uint (Z.to_N n)) eqn:E; rewrite <- ?E;
    first [reflexivity | apply string_of_uint_hex].
Qed.

Lemma padStart_hex n (s : string) :
  allChars isHexDigit s = true → allChars isHexDigit (padStart n "0" s) = true.
Proof.
  intros Hs. unfold padStart. rewrite allChars_app, Hs, andb_true_r.
  induction (n - String.length s)%nat as [| k IH]; [done |].
  cbn [repeat string_of_list_ascii allChars]. by rewrite IH.
Qed.

(** The identifier of [safeId] is made of characters of [0-9a-f] only,
    whatever the code units of the url. *)
Lemma safeId_units_hex (units : list Z) :
  allChars isHexDigit (safeId_units units) = true.
Proof. unfold safeId_units. apply padStart_hex, toString16_hex. Qed.

Lemma replaceNonAlnum_chars (s : string) :
  allChars isIdChar (replaceNonAlnum s) = true.
Proof.
  induction s as [| c s IH]; [done |].
  cbn [replaceNonAlnum allChars]. rewrite IH, andb_true_r.
  unfold isIdChar. by destruct (isAlnum c) eqn:E; rewrite ?E.
Qed.

Lemma collapseDashes_chars p (s : string) :
  allChars p s = true → allChars p (collapseDashes s) = true.
Proof.
  induction s as [| c s IH]; [done |].
  cbn [allChars]. intros [Hc Hs]%andb_true_iff. specialize (IH Hs).
  cbn [collapseDashes]. destruct s as [| d s']; [by cbn; rewrite Hc |].
  destruct (Ascii.eqb c "-" && Ascii.eqb d "-"); [done |].
  cbn [allChars] in *. by rewrite Hc.
Qed.

Lemma dropTrailingDash_chars p (s : string) :
  allChars p s = true → allChars p (dropTrailingDash s) = true.
Proof.
  induction s as [| c s IH]; [done |].
  cbn [allChars]. intros [Hc Hs]%andb_true_iff. specialize (IH Hs).
  cbn [dropTrailingDash]. destruct s as [| d s'].
  - destruct (Ascii.eqb c "-"); [done | by cbn; rewrite Hc].
  - cbn [allChars] in *. by rewrite Hc.
Qed.

Lemma trimDashes_chars p (s : string) :
  allChars p s = true → allChars p (trimDashes s) = true.
Proof.
  destruct s as [| c s]; [done |]. intros H. unfold trimDashes.
  destruct (Ascii.eqb c "-"); apply dropTrailingDash_chars; [| done].
  cbn [allChars] in H. by apply andb_true_iff in H as [_ ?].
Qed.

(** The inline identifier is made of letters, digits and dashes only. *)
Lemma inlineSafeId_chars (url : string) :
  allChars isIdChar (inlineSafeId url) = true.
Proof.
  unfold inlineSafeId. rewrite allChars_app. apply andb_true_iff. split; [done |].
  apply trimDashes_chars, collapseDashes_chars, replaceNonAlnum_chars.
Qed.

(** [safeId] is a function of the url alone: equal urls, equal keys. *)
Lemma create_same_identity (cfg1 cfg2 : CircuitBreakerConfig) :
  cfg_url cfg1 = cfg_url cfg2 →
  stateId (create cfg1) = stateId (create cfg2)
  ∧ stateId (create_inline cfg1) = stateId (create_inline cfg2).
Proof. cbn. by intros ->. Qed.


(** C2 at its failing inputs.  The hash of [safeId] sends two different
    urls to the same store identifier, and so does the inline derivation
    for a url and the same url with the other scheme. *)
Theorem safeId_collisions :
  "https://api.example.com/Aa" ≠ "https://api.example.com/BB"
  ∧ stateId (create (configFor "https://api.example.com/Aa")) = "21355ff5"
  ∧ stateId (create (configFor "https://api.example.com/BB")) = "21355ff5"
  ∧ "Aa" ≠ "BB"
  ∧ safeId "Aa" = "00000840" ∧ safeId "BB" = "00000840"
  ∧ "http://api.example.com" ≠ "https://api.example.com"
  ∧ stateId (create_inline (configFor "http://api.example.com"))
    = "circuit-api-example-com"
  ∧ stateId (create_inline (configFor "https://api.example.com"))
    = "circuit-api-example-com".
Proof. repeat split; try discriminate; vm_compute; reflexivity. Qed.

(** ** Opening at the threshold *)

Lemma recordFailures_app P ts1 ts2 (s : State) :
  recordFailures P (ts1 ++ ts2) s
  = match recordFailures P ts1 s with
    | Some (_, s1) => recordFailures P ts2 s1
    | None => None
    end.
Proof.
  revert s. induction ts1 as [| [now nowOpen] ts1 IH]; intros s; [done |].
  cbn [app recordFailures]. unfold mbind, M_bind.
  destruct (recordFailure P now nowOpen s) as [[[] s1] |]; [apply IH | done].
Qed.

(** Below the threshold a CLOSED breaker only counts. *)
Lemma recordFailures_below P ts (s : State) f :
  circuitState s = CLOSED →
  s !! "failures" = Some (VNum f) →
  f + Z.of_nat (length ts) < failureThreshold P →
  ∃ s', recordFailures P ts s = Some (tt, s')
    ∧ circuitState s' = CLOSED
    ∧ s' !! "failures" = Some (VNum (f + Z.of_nat (length ts))).
Proof.
  revert s f. induction ts as [| [now nowOpen] ts IH]; intros s f Hst Hf Hlt.
  - exists s. cbn. by rewrite Z.add_0_r.
  - cbn [length] in Hlt. cbn [recordFailures]. unfold mbind, M_bind.
    rewrite (recordFailure_run _ _ _ _ _ (numberAt_failures _ _ Hf)), Hst.
    cbn [nullish]. rewrite strict_eq_false by done.
    replace (_ <=? f + 1) with false by (symmetry; apply Z.leb_gt; lia).
    cbn [orb].
    destruct (IH (failureNoted now (Some f) s) (f + 1)) as (s' & Hrun & Hst' & Hf').
    + unfold failureNoted. by rewrite !circuitState_insert_ne.
    + views. done.
    + lia.
    + exists s'. split; [done |]. split; [done |].
      rewrite Hf'. do 2 f_equal. cbn [length]. lia.
Qed.

(** C3. A new breaker with a positive threshold, after exactly
    [failureThreshold] failures in a row: the state is OPEN, [openedAt] is
    the clock reading of the last failure's [openCircuit], [successCount]
    is 0, and [canProceed] answers [false] without writing as long as less
    than [timeoutMs] has elapsed since [openedAt]. *)
Theorem threshold_failures_open (d : string → string) (cfg : CircuitBreakerConfig)
    (ts : list (Z * Z)) :
  let cb := create_with d cfg in
  0 < failureThreshold (props cb) →
  Z.of_nat (length ts) = failureThreshold (props cb) →
  ∃ t tOpen s',
    last ts = Some (t, tOpen)
    ∧ recordFailures (props cb) ts (state cb) = Some (tt, s')
    ∧ circuitState s' = OPEN
    ∧ s' !! "openedAt" = Some (VNum tOpen)
    ∧ s' !! "successCount" = Some (VNum 0)
    ∧ s' !! "failures" = Some (VNum (failureThreshold (props cb)))
    ∧ s' !! "lastFailure" = Some (VNum t)
    ∧ ∀ now, now - tOpen < timeoutMs (props cb) →
        canProceed (props cb) now s' = Some (false, s').
Proof.
  intros cb Hpos Hlen.
  destruct ts as [| p ts0 _] using rev_ind; [cbn [length] in Hlen; lia |].
  destruct p as [t tOpen]. rewrite length_app in Hlen. cbn [length] in Hlen.
  destruct (recordFailures_below (props cb) ts0 (state cb) 0)
    as (s1 & Hrun & Hst & Hf); [done | done | lia |].
  exists t, tOpen. eexists. split; [apply last_snoc |]. split.
  - rewrite recordFailures_app, Hrun. cbn [recordFailures]. unfold mbind, M_bind.
    rewrite (recordFailure_run _ _ _ _ _ (numberAt_failures _ _ Hf)), Hst.
    cbn [nullish]. rewrite strict_eq_false by done.
    replace (_ <=? _) with true by (symmetry; apply Z.leb_le; lia).
    reflexivity.
  - repeat split; try (views; done).
    + views. do 2 f_equal. lia.
    + intros now Hel. rewrite (canProceed_run _ _ _ (Some tOpen)) by (views; done).
      replace (circuitState _) with OPEN by (views; done).
      rewrite strict_eq_false, strict_eq_true by done. cbn [nullish].
      replace (_ <=? now - tOpen) with false by (symmetry; apply Z.leb_gt; lia).
      by rewrite andb_false_r.
Qed.

Lemma threshold_failures_open_witness :
  ∃ t tOpen s',
    last [(10, 10); (11, 12)] = Some (t, tOpen)
    ∧ recordFailures (props exampleBreaker) [(10, 10); (11, 12)]
        (state exampleBreaker) = Some (tt, s')
    ∧ circuitState s' = OPEN
    ∧ s' !! "openedAt" = Some (VNum tOpen)
    ∧ s' !! "successCount" = Some (VNum 0)
    ∧ s' !! "failures" = Some (VNum (failureThreshold (props exampleBreaker)))
    ∧ s' !! "lastFailure" = Some (VNum t)
    ∧ ∀ now, now - tOpen < timeoutMs (props exampleBreaker) →
        canProceed (props exampleBreaker) now s' = Some (false, s').
Proof.
  apply (threshold_failures_open safeId exampleConfig [(10, 10); (11, 12)]).
  - reflexivity.
  - reflexivity.
Defined.

(** ** Timeout expiry *)

(** C4, as stated, fails when the stored [openedAt] is the number 0: the
    key is present and the timeout of 100 has long elapsed at time 1000, yet
    [canProceed] answers [false] and the breaker stays OPEN. *)
Lemma canProceed_open_zero_counterexample :
  reachable exampleBreaker exampleOpenAtZero
  ∧ circuitState exampleOpenAtZero = OPEN
  ∧ exampleOpenAtZero !! "openedAt" = Some (VNum 0)
  ∧ timeoutMs (props exampleBreaker) ≤ 1000 - 0
  ∧ canProceed (props exampleBreaker) 1000 exampleOpenAtZero
      = Some (false, exampleOpenAtZero).
Proof.
  split; [apply exampleOpenAtZero_reachable |].
  repeat split; vm_compute; congruence.
Qed.

(** C4 (amended). OPEN with a non-zero [openedAt]: once the timeout has
    elapsed, [canProceed] moves to HALF_OPEN, writes [successCount] 0 and
    answers [true]; before that it answers [false] and writes nothing. *)
Theorem canProceed_open_timeout (P : CircuitBreakerProps) (now t : Z) (s : State) :
  circuitState s = OPEN →
  s !! "openedAt" = Some (VNum t) →
  t ≠ 0 →
  (timeoutMs P ≤ now - t →
     canProceed P now s
       = Some (true, <["successCount" := VNum 0]> (<["state" := HALF_OPEN]> s)))
  ∧ (now - t < timeoutMs P → canProceed P now s = Some (false, s)).
Proof.
  intros Hst Ho Ht.
  assert (numberAt "openedAt" s = Some (Some t)) as Hn
    by (unfold numberAt; by rewrite Ho).
  rewrite (canProceed_run _ _ _ _ Hn), Hst. cbn [strict_eq nullish truthy].
  replace (t =? 0) with false by (symmetry; by apply Z.eqb_neq).
  split; intros Hel.
  - replace (timeoutMs P <=? now - t) with true by (symmetry; by apply Z.leb_le).
    reflexivity.
  - replace (timeoutMs P <=? now - t) with false by (symmetry; apply Z.leb_gt; lia).
    reflexivity.
Qed.

Lemma canProceed_open_timeout_witness :
  (timeoutMs (props exampleBreaker) ≤ 200 - 11 →
     canProceed (props exampleBreaker) 200 exampleOpen
       = Some (true, <["successCount" := VNum 0]> (<["state" := HALF_OPEN]> exampleOpen)))
  ∧ (200 - 11 < timeoutMs (props exampleBreaker) →
     canProceed (props exampleBreaker) 200 exampleOpen = Some (false, exampleOpen)).
Proof.
  apply (canProceed_open_timeout (props exampleBreaker) 200 11 exampleOpen);
    [reflexivity | reflexivity | lia].
Defined.

(** ** Closing from HALF_OPEN *)

(** Successes recorded by a fully reset breaker leave it fully reset. *)
Lemma recordSuccesses_fullyReset P n (s : State) :
  fullyReset s →
  ∃ s', recordSuccesses P n s = Some (tt, s') ∧ fullyReset s'.
Proof.
  revert s. induction n as [| n IH]; intros s Hs; [by exists s |].
  cbn [recordSuccesses]. unfold mbind, M_bind.
  destruct Hs as (Hst & Hf & Hc & Hl & Ho).
  rewrite (recordSuccess_run _ _ (Some 0)) by (unfold numberAt; by rewrite Hc).
  rewrite (circuitState_lookup _ _ Hst) by done.
  rewrite strict_eq_false, strict_eq_true by done.
  apply IH. unfold fullyReset. by simplify_map_eq.
Qed.

Lemma fullyReset_closed (s : State) : fullyReset (closed s).
Proof. unfold fullyReset, closed. by simplify_map_eq. Qed.

(** From HALF_OPEN, enough successes to reach the threshold reset the
    breaker, and it stays reset under the successes that follow. *)
Lemma recordSuccesses_half_open P n (s : State) c :
  circuitState s = HALF_OPEN →
  numberAt "successCount" s = Some c →
  (0 < n)%nat →
  halfOpenSuccessThreshold P ≤ nullish c 0 + Z.of_nat n →
  ∃ s', recordSuccesses P n s = Some (tt, s') ∧ fullyReset s'.
Proof.
  revert s c. induction n as [| n IH]; intros s c Hst Hc Hn Hle; [lia |].
  cbn [recordSuccesses]. unfold mbind, M_bind.
  rewrite (recordSuccess_run _ _ _ Hc), Hst, strict_eq_true. cbn zeta.
  destruct (halfOpenSuccessThreshold P <=? nullish c 0 + 1) eqn:Hth.
  - apply recordSuccesses_fullyReset, fullyReset_closed.
  - apply Z.leb_gt in Hth.
    apply (IH _ (Some (nullish c 0 + 1))).
    + by rewrite circuitState_insert_ne.
    + apply numberAt_insert.
    + lia.
    + cbn [nullish]. lia.
Qed.

(** C5. HALF_OPEN with a non-negative [successCount] and a positive
    threshold: after [halfOpenSuccessThreshold] calls of [recordSuccess]
    the state is CLOSED, both counters are 0 and both timestamps are
    null. *)
Theorem half_open_successes_reset (P : CircuitBreakerProps) (n : nat)
    (s : State) (c : option Z) :
  circuitState s = HALF_OPEN →
  numberAt "successCount" s = Some c →
  0 ≤ nullish c 0 →
  0 < halfOpenSuccessThreshold P →
  Z.of_nat n = halfOpenSuccessThreshold P →
  ∃ s', recordSuccesses P n s = Some (tt, s')
    ∧ circuitState s' = CLOSED
    ∧ s' !! "failures" = Some (VNum 0)
    ∧ s' !! "successCount" = Some (VNum 0)
    ∧ absent (s' !! "lastFailure")
    ∧ absent (s' !! "openedAt").
Proof.
  intros Hst Hc Hc0 Hpos Hn.
  destruct (recordSuccesses_half_open P n s c) as (s' & Hrun & Hreset);
    [done | done | lia | lia |].
  destruct Hreset as (H1 & H2 & H3 & H4 & H5).
  exists s'. split; [done |].
  rewrite (circuitState_lookup _ _ H1) by done. unfold absent. auto 10.
Qed.

Lemma half_open_successes_reset_witness :
  ∃ s', recordSuccesses (props exampleBreaker) 2 exampleHalfOpen = Some (tt, s')
    ∧ circuitState s' = CLOSED
    ∧ s' !! "failures" = Some (VNum 0)
    ∧ s' !! "successCount" = Some (VNum 0)
    ∧ absent (s' !! "lastFailure")
    ∧ absent (s' !! "openedAt").
Proof.
  apply (half_open_successes_reset (props exampleBreaker) 2 exampleHalfOpen (Some 0));
    [reflexivity | reflexivity | cbn; lia | reflexivity | reflexivity].
Defined.

(** ** Reopening from HALF_OPEN *)

(** C6. HALF_OPEN: one [recordFailure] opens the circuit whatever the
    threshold is: state OPEN, [openedAt] the clock reading of this call,
    [successCount] 0, [failures] one more than before, [lastFailure] the
    clock reading of this call. *)
Theorem recordFailure_half_open (P : CircuitBreakerProps) (now nowOpen : Z)
    (s : State) (f : option Z) :
  circuitState s = HALF_OPEN →
  numberAt "failures" s = Some f →
  ∃ s', recordFailure P now nowOpen s = Some (tt, s')
    ∧ circuitState s' = OPEN
    ∧ s' !! "openedAt" = Some (VNum nowOpen)
    ∧ s' !! "successCount" = Some (VNum 0)
    ∧ s' !! "failures" = Some (VNum (nullish f 0 + 1))
    ∧ s' !! "lastFailure" = Some (VNum now).
Proof.
  intros Hst Hf. eexists. split.
  - rewrite (recordFailure_run _ _ _ _ _ Hf), Hst. reflexivity.
  - unfold circuitState, opened, failureNoted. by simplify_map_eq.
Qed.

Lemma recordFailure_half_open_witness :
  ∃ s', recordFailure (props exampleBreaker) 300 301 exampleHalfOpen = Some (tt, s')
    ∧ circuitState s' = OPEN
    ∧ s' !! "openedAt" = Some (VNum 301)
    ∧ s' !! "successCount" = Some (VNum 0)
    ∧ s' !! "failures" = Some (VNum (nullish (Some 2) 0 + 1))
    ∧ s' !! "lastFailure" = Some (VNum 300).
Proof.
  apply (recordFailure_half_open (props exampleBreaker) 300 301 exampleHalfOpen (Some 2));
    reflexivity.
Defined.

(** ** Reset, no-op and defaults *)

(** C7. [resetCircuit] in any store: the state is CLOSED, both counters are
    0 and both timestamps are null afterwards; every other key keeps its
    value. *)
Theorem resetCircuit_unconditional (s : State) :
  ∃ s', resetCircuit s = Some (tt, s')
    ∧ s' !! "state" = Some CLOSED
    ∧ s' !! "failures" = Some (VNum 0)
    ∧ s' !! "successCount" = Some (VNum 0)
    ∧ s' !! "lastFailure" = Some VNull
    ∧ s' !! "openedAt" = Some VNull
    ∧ circuitState s' = CLOSED
    ∧ absent (s' !! "lastFailure") ∧ absent (s' !! "openedAt").
Proof.
  eexists. split; [reflexivity |].
  unfold circuitState, absent. simplify_map_eq. repeat split; auto.
Qed.

(** C8. [recordSuccess] while OPEN returns with the store unchanged. *)
Theorem recordSuccess_open_noop (P : CircuitBreakerProps) (s : State) :
  circuitState s = OPEN → recordSuccess P s = Some (tt, s).
Proof.
  intros Hst. run_body. fold (circuitState s). rewrite Hst. reflexivity.
Qed.

Lemma recordSuccess_open_noop_witness :
  recordSuccess (props exampleBreaker) exampleOpen = Some (tt, exampleOpen).
Proof.
  apply (recordSuccess_open_noop (props exampleBreaker) exampleOpen). reflexivity.
Defined.

(** C9. On a store with no key at all the reads take their defaults:
    [getCircuitState] answers CLOSED, [getStats] reports CLOSED, counters 0
    and undefined timestamps; and [getStats] returns every store as it was
    handed in. *)
Theorem reads_default_when_absent (P : CircuitBreakerProps) :
  getCircuitState ∅ = Some (CLOSED, ∅)
  ∧ getStats P ∅
    = Some ({| stat_url := url P;
               stat_state := CLOSED;
               stat_failures := VNum 0;
               stat_lastFailure := None;
               stat_successCount := VNum 0;
               stat_openedAt := None;
               stat_failureThreshold := failureThreshold P;
               stat_timeoutMs := timeoutMs P;
               stat_halfOpenSuccessThreshold := halfOpenSuccessThreshold P |}, ∅)
  ∧ ∀ s : State, ∃ stats, getStats P s = Some (stats, s).
Proof.
  split; [reflexivity |]. split; [reflexivity |].
  intros s. eexists. reflexivity.
Qed.

(** C10. OPEN with [openedAt] absent or 0: [canProceed] answers [false] and
    leaves the store as it is, whatever the clock and the timeout. *)
Theorem canProceed_open_falsy_openedAt (P : CircuitBreakerProps) (now : Z) (s : State) :
  circuitState s = OPEN →
  absent (s !! "openedAt") ∨ s !! "openedAt" = Some (VNum 0) →
  canProceed P now s = Some (false, s).
Proof.
  intros Hst Ho.
  assert (∃ o, numberAt "openedAt" s = Some o ∧ truthy o = false) as (o & Hn & Ht).
  { unfold numberAt, absent in *. destruct Ho as [[-> | ->] | ->]; by eexists. }
  rewrite (canProceed_run _ _ _ _ Hn), Hst, Ht. reflexivity.
Qed.

Lemma canProceed_open_falsy_openedAt_witness :
  canProceed (props exampleBreaker) 1000 exampleOpenAtZero
    = Some (false, exampleOpenAtZero).
Proof.
  apply (canProceed_open_falsy_openedAt (props exampleBreaker) 1000 exampleOpenAtZero).
  - reflexivity.
  - right. reflexivity.
Defined.

(** ** What [canProceed] does and does not do *)

(** X1. A refusal writes nothing: when [canProceed] answers [false] the
    store is the one it was given. *)
Theorem canProceed_false_no_write (P : CircuitBreakerProps) (now : Z) (s s' : State) :
  canProceed P now s = Some (false, s') → s' = s.
Proof.
  unfold canProceed, mbind, M_bind, mret, M_ret. rewrite getCircuitState_run.
  destruct (strict_eq (circuitState s) CLOSED); [intros; by simplify_eq |].
  destruct (strict_eq (circuitState s) OPEN).
  - unfold get_number. intros H.
    destruct (s !! "openedAt") as [[| n | t] |]; cbn in H;
      repeat case_match; by simplify_eq.
  - destruct (strict_eq (circuitState s) HALF_OPEN); intros; by simplify_eq.
Qed.

Lemma canProceed_false_no_write_witness : exampleOpen = exampleOpen.
Proof.
  apply (canProceed_false_no_write (props exampleBreaker) 50 exampleOpen exampleOpen).
  vm_compute. reflexivity.
Defined.

(** X2. Once [canProceed] has answered [true], the breaker is CLOSED or
    HALF_OPEN and every further [canProceed], at any clock reading, answers
    [true] again without writing: any number of callers get through until
    an outcome is recorded. *)
Theorem canProceed_true_stays_true (P : CircuitBreakerProps) (now : Z) (s s' : State) :
  canProceed P now s = Some (true, s') →
  (circuitState s' = CLOSED ∨ circuitState s' = HALF_OPEN)
  ∧ ∀ now', canProceed P now' s' = Some (true, s').
Proof.
  unfold canProceed at 1. unfold mbind, M_bind, mret, M_ret.
  rewrite getCircuitState_run.
  assert (∀ s1 : State, circuitState s1 = CLOSED ∨ circuitState s1 = HALF_OPEN →
            ∀ now', canProceed P now' s1 = Some (true, s1)) as Hgo.
  { intros s1 Hs1 now'. unfold canProceed, mbind, M_bind, mret, M_ret.
    rewrite getCircuitState_run.
    destruct Hs1 as [-> | ->]; [by rewrite strict_eq_true |].
    by rewrite !strict_eq_false, strict_eq_true by done. }
  destruct (strict_eq (circuitState s) CLOSED) eqn:Hc.
  { intros; simplify_eq. apply bool_decide_eq_true in Hc. auto. }
  destruct (strict_eq (circuitState s) OPEN).
  - unfold get_number. intros H.
    destruct (s !! "openedAt") as [[| n | t] |]; cbn in H;
      repeat case_match; simplify_eq.
    assert (circuitState (<["successCount":=VNum 0]> (<["state":=HALF_OPEN]> s))
            = HALF_OPEN) by (views; done).
    auto.
  - destruct (strict_eq (circuitState s) HALF_OPEN) eqn:Hh; intros; simplify_eq.
    apply bool_decide_eq_true in Hh. auto.
Qed.

Lemma canProceed_true_stays_true_witness :
  (circuitState exampleHalfOpen = CLOSED ∨ circuitState exampleHalfOpen = HALF_OPEN)
  ∧ ∀ now', canProceed (props exampleBreaker) now' exampleHalfOpen
            = Some (true, exampleHalfOpen).
Proof.
  apply (canProceed_true_stays_true (props exampleBreaker) 200 exampleOpen exampleHalfOpen).
  vm_compute. reflexivity.
Defined.

(** X3. A state tag that is none of the three: [canProceed] refuses and
    [recordSuccess] does nothing, both without a write. *)
Theorem unknown_state_blocks (P : CircuitBreakerProps) (now : Z) (s : State) :
  circuitState s ≠ CLOSED → circuitState s ≠ OPEN → circuitState s ≠ HALF_OPEN →
  canProceed P now s = Some (false, s) ∧ recordSuccess P s = Some (tt, s).
Proof.
  intros Hc Ho Hh.
  unfold canProceed, recordSuccess, mbind, M_bind, mret, M_ret.
  rewrite getCircuitState_run.
  by rewrite !strict_eq_false by done.
Qed.

Lemma unknown_state_blocks_witness :
  canProceed (props exampleBreaker) 50 exampleUnknown = Some (false, exampleUnknown)
  ∧ recordSuccess (props exampleBreaker) exampleUnknown = Some (tt, exampleUnknown).
Proof.
  apply (unknown_state_blocks (props exampleBreaker) 50 exampleUnknown);
    vm_compute; discriminate.
Defined.

(** ** The shape of reachable stores *)

Lemma shape_create d (cfg : CircuitBreakerConfig) :
  shape (props (create_with d cfg)) (state (create_with d cfg)).
Proof. apply (shape_closed _ _ 0); cbn; by simplify_map_eq; auto. Qed.

(** Pick the form by the state tag and close its side conditions. *)
Ltac shape_field :=
  first [ done | lia | by eauto
        | left; split; [lia | done]
        | right; split; [lia | by eauto] ].

Ltac shape_solve :=
  solve [ eapply shape_closed; views; shape_field
        | eapply shape_open; views; shape_field
        | eapply shape_half_open; views; shape_field ].

Lemma numberAt_lookup key (s : State) n :
  s !! key = Some (VNum n) → numberAt key s = Some (Some n).
Proof. unfold numberAt. by intros ->. Qed.

Lemma shape_step P (s s' : State) : shape P s → step P s s' → shape P s'.
Proof.
  intros Hs Hstep.
  destruct Hs as [f Hst Hf Hlf Hc Ho | f tl t Hst Hf Hth Hpos Hlf Hc Ho
                  | f tl t c Hst Hf Hth Hpos Hlf Hc Hc0 Hcth Ho];
    pose proof (circuitState_lookup _ _ Hst ltac:(done)) as Hcs;
    pose proof (numberAt_lookup _ _ _ Hf) as Hnf;
    pose proof (numberAt_lookup _ _ _ Hc) as Hnc;
    destruct Hstep as [now b H | H | now nowOpen H | H].
  all: try (rewrite resetCircuit_run in H; simplify_eq; shape_solve).
  all: try (rewrite (recordSuccess_run _ _ _ Hnc), Hcs in H; tags H;
            cbn [nullish] in H; cbn zeta in H;
            try destruct (Z.leb_spec (halfOpenSuccessThreshold P) (c + 1));
            simplify_eq; shape_solve).
  all: try (rewrite (recordFailure_run _ _ _ _ _ Hnf), Hcs in H; tags H;
            cbn [nullish orb] in H;
            try destruct (Z.leb_spec (failureThreshold P) (f + 1));
            simplify_eq; try lia; destruct_or?; destruct_and?; shape_solve).
  - rewrite (canProceed_run _ _ _ None), Hcs in H by (unfold numberAt; by rewrite Ho).
    tags H. simplify_eq. shape_solve.
  - rewrite (canProceed_run _ _ _ _ (numberAt_lookup _ _ _ Ho)), Hcs in H.
    tags H. destruct (truthy _ && _); simplify_eq; shape_solve.
  - rewrite (canProceed_run _ _ _ _ (numberAt_lookup _ _ _ Ho)), Hcs in H.
    tags H. simplify_eq. shape_solve.
Qed.

Lemma shape_reachable d (cfg : CircuitBreakerConfig) (s : State) :
  reachable (create_with d cfg) s → shape (props (create_with d cfg)) s.
Proof.
  unfold reachable. revert s. apply rtc_ind_r; [apply shape_create |].
  intros y z _ Hyz IH. by apply (shape_step _ y).
Qed.

(** X4. A store reached from [create] always carries one of the three
    state tags, and [openedAt] holds a timestamp exactly when the state is
    not CLOSED: it is null while CLOSED and a number while OPEN or
    HALF_OPEN. *)
Theorem reachable_openedAt (d : string → string) (cfg : CircuitBreakerConfig)
    (s : State) :
  reachable (create_with d cfg) s →
  (circuitState s = CLOSED ∧ s !! "openedAt" = Some VNull)
  ∨ ((circuitState s = OPEN ∨ circuitState s = HALF_OPEN)
     ∧ ∃ t, s !! "openedAt" = Some (VNum t)).
Proof.
  intros Hr. destruct (shape_reachable _ _ _ Hr)
    as [f Hst Hf Hlf Hc Ho | f tl t Hst Hf Hth Hpos Hlf Hc Ho
        | f tl t c Hst Hf Hth Hpos Hlf Hc Hc0 Hcth Ho];
    rewrite (circuitState_lookup _ _ Hst) by done; eauto 6.
Qed.

Lemma reachable_openedAt_witness :
  (circuitState exampleHalfOpen = CLOSED ∧ exampleHalfOpen !! "openedAt" = Some VNull)
  ∨ ((circuitState exampleHalfOpen = OPEN ∨ circuitState exampleHalfOpen = HALF_OPEN)
     ∧ ∃ t, exampleHalfOpen !! "openedAt" = Some (VNum t)).
Proof.
  apply (reachable_openedAt safeId exampleConfig exampleHalfOpen).
  apply exampleHalfOpen_reachable.
Defined.

(** X5. In a store reached from [create], [successCount] is 0 outside
    HALF_OPEN; inside HALF_OPEN it is non-negative and, once positive,
    still below [halfOpenSuccessThreshold]. *)
Theorem reachable_successCount (d : string → string) (cfg : CircuitBreakerConfig)
    (s : State) :
  reachable (create_with d cfg) s →
  ∃ c, s !! "successCount" = Some (VNum c)
    ∧ 0 ≤ c
    ∧ (circuitState s ≠ HALF_OPEN → c = 0)
    ∧ (0 < c → c < halfOpenSuccessThreshold (props (create_with d cfg))).
Proof.
  intros Hr. destruct (shape_reachable _ _ _ Hr)
    as [f Hst Hf Hlf Hc Ho | f tl t Hst Hf Hth Hpos Hlf Hc Ho
        | f tl t c Hst Hf Hth Hpos Hlf Hc Hc0 Hcth Ho];
    rewrite (circuitState_lookup _ _ Hst) by done;
    eexists; (split; [done |]); repeat split; first [done | lia].
Qed.

Lemma reachable_successCount_witness :
  ∃ c, exampleHalfOpen !! "successCount" = Some (VNum c)
    ∧ 0 ≤ c
    ∧ (circuitState exampleHalfOpen ≠ HALF_OPEN → c = 0)
    ∧ (0 < c → c < halfOpenSuccessThreshold (props (create_with safeId exampleConfig))).
Proof.
  apply (reachable_successCount safeId exampleConfig exampleHalfOpen).
  apply exampleHalfOpen_reachable.
Defined.

(** X6. In a store reached from [create], [failures] is non-negative and
    is 0 exactly when [lastFailure] is null; while CLOSED a positive count
    is below [failureThreshold], and outside CLOSED the count is positive
    and has reached the threshold. *)
Theorem reachable_failures (d : string → string) (cfg : CircuitBreakerConfig)
    (s : State) :
  reachable (create_with d cfg) s →
  ∃ f, s !! "failures" = Some (VNum f)
    ∧ 0 ≤ f
    ∧ (f = 0 ↔ s !! "lastFailure" = Some VNull)
    ∧ (0 < f → ∃ t, s !! "lastFailure" = Some (VNum t))
    ∧ (circuitState s = CLOSED → 0 < f →
         f < failureThreshold (props (create_with d cfg)))
    ∧ (circuitState s ≠ CLOSED →
         0 < f ∧ failureThreshold (props (create_with d cfg)) ≤ f).
Proof.
  intros Hr. destruct (shape_reachable _ _ _ Hr)
    as [f Hst Hf Hlf Hc Ho | f tl t Hst Hf Hth Hpos Hlf Hc Ho
        | f tl t c Hst Hf Hth Hpos Hlf Hc Hc0 Hcth Ho];
    rewrite (circuitState_lookup _ _ Hst) by done;
    exists f; (split; [done |]).
  - destruct Hlf as [[-> Hlf] | [Hf0 [t Hlf]]]; rewrite Hlf;
      repeat split; intros; first [done | lia | by eauto].
  - rewrite Hlf. repeat split; intros; first [done | lia | by eauto].
  - rewrite Hlf. repeat split; intros; first [done | lia | by eauto].
Qed.

Lemma reachable_failures_witness :
  ∃ f, exampleOpen !! "failures" = Some (VNum f)
    ∧ 0 ≤ f
    ∧ (f = 0 ↔ exampleOpen !! "lastFailure" = Some VNull)
    ∧ (0 < f → ∃ t, exampleOpen !! "lastFailure" = Some (VNum t))
    ∧ (circuitState exampleOpen = CLOSED → 0 < f →
         f < failureThreshold (props (create_with safeId exampleConfig)))
    ∧ (circuitState exampleOpen ≠ CLOSED →
         0 < f ∧ failureThreshold (props (create_with safeId exampleConfig)) ≤ f).
Proof.
  apply (reachable_failures safeId exampleConfig exampleOpen).
  apply exampleOpen_reachable.
Defined.

(** ** Keys the methods leave alone *)

Lemma not_breakerKey (k : string) :
  k ∉ breakerKeys →
  "state" ≠ k ∧ "failures" ≠ k ∧ "lastFailure" ≠ k ∧ "successCount" ≠ k
  ∧ "openedAt" ≠ k.
Proof.
  unfold breakerKeys. rewrite !not_elem_of_cons. intros (? & ? & ? & ? & ? & _).
  repeat split; congruence.
Qed.

Lemma step_other_keys P (s s' : State) (k : string) :
  step P s s' → k ∉ breakerKeys → s' !! k = s !! k.
Proof.
  intros Hstep (K1 & K2 & K3 & K4 & K5)%not_breakerKey.
  destruct Hstep as [now b H | H | now nowOpen H | H];
    unfold canProceed, recordSuccess, recordFailure, resetCircuit, openCircuit,
      getCircuitState, get, set, get_number, mbind, mret, M_bind, M_ret in H;
    cbn beta iota in H; repeat case_match; simplify_eq;
    by rewrite ?lookup_insert_ne by done.
Qed.

Lemma reachable_frame (d : string → string) (cfg : CircuitBreakerConfig)
    (s : State) :
  reachable (create_with d cfg) s →
  ∀ k, k ∉ breakerKeys → s !! k = state (create_with d cfg) !! k.
Proof.
  unfold reachable. revert s.
  apply (rtc_ind_r (λ s : State, ∀ k, k ∉ breakerKeys →
                      s !! k = state (create_with d cfg) !! k)); [done |].
  intros y z _ Hyz IH k Hk. rewrite <- (IH k Hk).
  by apply (step_other_keys (props (create_with d cfg))).
Qed.

Lemma url_not_breakerKey : "url" ∉ breakerKeys.
Proof.
  unfold breakerKeys. rewrite !not_elem_of_cons.
  repeat split; first [done | apply not_elem_of_nil].
Qed.

(** X7. The methods write the five keys [state], [failures],
    [lastFailure], [successCount] and [openedAt] and no other: every other
    key of a store reached from [create], the [url] among them, holds what
    [create] put there. *)
Theorem reachable_other_keys (d : string → string) (cfg : CircuitBreakerConfig)
    (s : State) :
  reachable (create_with d cfg) s →
  (∀ k, k ∉ breakerKeys → s !! k = state (create_with d cfg) !! k)
  ∧ s !! "url" = Some (VStr (cfg_url cfg)).
Proof.
  intros Hr. split; [by apply reachable_frame |].
  by rewrite (reachable_frame _ _ _ Hr "url" url_not_breakerKey).
Qed.

Lemma reachable_other_keys_witness :
  (∀ k, k ∉ breakerKeys →
     exampleHalfOpen !! k = state (create_with safeId exampleConfig) !! k)
  ∧ exampleHalfOpen !! "url" = Some (VStr (cfg_url exampleConfig)).
Proof.
  apply (reachable_other_keys safeId exampleConfig exampleHalfOpen).
  apply exampleHalfOpen_reachable.
Defined.

(** A fully reset store that agrees with the initial one on the other keys
    is the initial store. *)
Lemma fullyReset_initial (d : string → string) (cfg : CircuitBreakerConfig)
    (s : State) :
  fullyReset s →
  (∀ k, k ∉ breakerKeys → s !! k = state (create_with d cfg) !! k) →
  s = state (create_with d cfg).
Proof.
  intros (H1 & H2 & H3 & H4 & H5) Hother. apply map_eq. intros k.
  destruct (decide (k ∈ breakerKeys)) as [Hin | Hout]; [| by apply Hother].
  unfold breakerKeys in Hin. rewrite !elem_of_cons in Hin.
  destruct Hin as [-> | [-> | [-> | [-> | [-> | Hnil]]]]];
    [| | | | | by apply elem_of_nil in Hnil];
    cbn; by simplify_map_eq.
Qed.

(** X8. [resetCircuit] on any store reached from [create] gives back
    exactly the store [create] built. *)
Theorem resetCircuit_restores_initial (d : string → string)
    (cfg : CircuitBreakerConfig) (s : State) :
  reachable (create_with d cfg) s →
  resetCircuit s = Some (tt, state (create_with d cfg)).
Proof.
  intros Hr. rewrite resetCircuit_run. do 2 f_equal.
  apply fullyReset_initial; [apply fullyReset_closed |].
  intros k Hk. rewrite <- (reachable_frame _ _ _ Hr k Hk).
  apply not_breakerKey in Hk as (K1 & K2 & K3 & K4 & K5).
  unfold closed. by rewrite !lookup_insert_ne by done.
Qed.

Lemma resetCircuit_restores_initial_witness :
  resetCircuit exampleHalfOpen = Some (tt, state (create_with safeId exampleConfig)).
Proof.
  apply (resetCircuit_restores_initial safeId exampleConfig exampleHalfOpen).
  apply exampleHalfOpen_reachable.
Defined.

(** ** Transitions *)

(** X9. Recording and asking never skip a state: one call of
    [canProceed], [recordSuccess] or [recordFailure] takes a CLOSED breaker
    to CLOSED or OPEN, never to HALF_OPEN, and an OPEN breaker to OPEN or
    HALF_OPEN, never to CLOSED. *)
Theorem call_transitions (P : CircuitBreakerProps) (s s' : State) :
  call P s s' →
  (circuitState s = CLOSED → circuitState s' = CLOSED ∨ circuitState s' = OPEN)
  ∧ (circuitState s = OPEN → circuitState s' = OPEN ∨ circuitState s' = HALF_OPEN).
Proof.
  intros [(now & b & H) | [H | (now & nowOpen & H)]];
    unfold canProceed, recordSuccess, recordFailure, openCircuit,
      get, set, get_number, mbind, mret, M_bind, M_ret in H;
    rewrite ?getCircuitState_run in H; cbn beta iota in H.
  - split; intros Hst; rewrite Hst in H; tags H;
      [simplify_eq; auto |].
    repeat case_match; simplify_eq; auto. right. views. done.
  - split; intros Hst; rewrite Hst in H; tags H; simplify_eq; auto.
    left. by rewrite !circuitState_insert_ne.
  - destruct (s !! "failures") as [[| f | t] |] eqn:Hf; simplify_eq;
      rewrite getCircuitState_run, !circuitState_insert_ne in H by done;
      (split; intros Hst; rewrite Hst in H; tags H;
       repeat case_match; simplify_eq; rewrite ?circuitState_insert_ne by done;
       first [ by auto | right; views; done | left; views; done ]).
Qed.

Lemma call_transitions_witness :
  (circuitState exampleOpen = CLOSED →
     circuitState exampleHalfOpen = CLOSED ∨ circuitState exampleHalfOpen = OPEN)
  ∧ (circuitState exampleOpen = OPEN →
     circuitState exampleHalfOpen = OPEN ∨ circuitState exampleHalfOpen = HALF_OPEN).
Proof.
  apply (call_transitions (props exampleBreaker) exampleOpen exampleHalfOpen).
  left. exists 200, true. vm_compute. reflexivity.
Defined.

(** ** Counting below the thresholds *)

Lemma canProceed_closed P now (s : State) :
  circuitState s = CLOSED → canProceed P now s = Some (true, s).
Proof.
  intros Hst. unfold canProceed, mbind, M_bind, mret, M_ret.
  by rewrite getCircuitState_run, Hst, strict_eq_true.
Qed.

Lemma canProceed_half_open P now (s : State) :
  circuitState s = HALF_OPEN → canProceed P now s = Some (true, s).
Proof.
  intros Hst. unfold canProceed, mbind, M_bind, mret, M_ret.
  by rewrite getCircuitState_run, Hst, !strict_eq_false, strict_eq_true by done.
Qed.

Lemma recordSuccess_closed P (s : State) :
  circuitState s = CLOSED →
  recordSuccess P s
  = Some (tt, <["lastFailure" := VNull]> (<["failures" := VNum 0]> s)).
Proof.
  intros Hst. unfold recordSuccess, mbind, M_bind, mret, M_ret.
  by rewrite getCircuitState_run, Hst, strict_eq_false, strict_eq_true by done.
Qed.

(** X10. Fewer failures than [failureThreshold] leave a new breaker
    CLOSED: the count is the number of failures and [canProceed] keeps
    answering [true] without writing. *)
Theorem failures_below_threshold (d : string → string) (cfg : CircuitBreakerConfig)
    (ts : list (Z * Z)) :
  let cb := create_with d cfg in
  Z.of_nat (length ts) < failureThreshold (props cb) →
  ∃ s', recordFailures (props cb) ts (state cb) = Some (tt, s')
    ∧ circuitState s' = CLOSED
    ∧ s' !! "failures" = Some (VNum (Z.of_nat (length ts)))
    ∧ ∀ now, canProceed (props cb) now s' = Some (true, s').
Proof.
  intros cb Hlt.
  destruct (recordFailures_below (props cb) ts (state cb) 0)
    as (s' & Hrun & Hst & Hf); [done | done | lia |].
  exists s'. repeat split; [done | done | by rewrite Hf, Z.add_0_l |].
  intros now. by apply canProceed_closed.
Qed.

Lemma failures_below_threshold_witness :
  ∃ s', recordFailures (props exampleBreaker) [(10, 10)] (state exampleBreaker)
        = Some (tt, s')
    ∧ circuitState s' = CLOSED
    ∧ s' !! "failures" = Some (VNum (Z.of_nat (length [(10, 10)])))
    ∧ ∀ now, canProceed (props exampleBreaker) now s' = Some (true, s').
Proof.
  apply (failures_below_threshold safeId exampleConfig [(10, 10)]). reflexivity.
Defined.

(** X11. A success while CLOSED forgives every failure counted so far:
    whatever the count was, after [recordSuccess] it again takes fewer than
    [failureThreshold] failures to stay CLOSED, and the count is the number
    of failures recorded since the success. *)
Theorem success_forgives_failures (P : CircuitBreakerProps) (s : State)
    (ts : list (Z * Z)) :
  circuitState s = CLOSED →
  Z.of_nat (length ts) < failureThreshold P →
  ∃ s', (recordSuccess P;; recordFailures P ts) s = Some (tt, s')
    ∧ circuitState s' = CLOSED
    ∧ s' !! "failures" = Some (VNum (Z.of_nat (length ts))).
Proof.
  intros Hst Hlt. unfold mbind at 1. unfold M_bind.
  rewrite (recordSuccess_closed _ _ Hst).
  destruct (recordFailures_below P ts
              (<["lastFailure" := VNull]> (<["failures" := VNum 0]> s)) 0)
    as (s' & Hrun & Hst' & Hf).
  - by rewrite !circuitState_insert_ne.
  - by simplify_map_eq.
  - lia.
  - exists s'. by rewrite Hf, Z.add_0_l.
Qed.

(** The example breaker, CLOSED with one failure counted at time 10. *)
Lemma success_forgives_failures_witness :
  ∃ s', (recordSuccess (props exampleBreaker);;
         recordFailures (props exampleBreaker) [(20, 20)])
          (storeOf CLOSED 1 (VNum 10) 0 VNull) = Some (tt, s')
    ∧ circuitState s' = CLOSED
    ∧ s' !! "failures" = Some (VNum (Z.of_nat (length [(20, 20)]))).
Proof.
  apply (success_forgives_failures (props exampleBreaker)
           (storeOf CLOSED 1 (VNum 10) 0 VNull) [(20, 20)]); reflexivity.
Defined.

(** X12. Successes short of [halfOpenSuccessThreshold] keep the breaker
    HALF_OPEN: [n] calls of [recordSuccess] add [n] to [successCount] and
    write nothing else, and [canProceed] still answers [true]. *)
Theorem half_open_successes_below (P : CircuitBreakerProps) (n : nat)
    (s : State) (c : Z) :
  circuitState s = HALF_OPEN →
  s !! "successCount" = Some (VNum c) →
  c + Z.of_nat n < halfOpenSuccessThreshold P →
  ∃ s', recordSuccesses P n s = Some (tt, s')
    ∧ s' = <["successCount" := VNum (c + Z.of_nat n)]> s
    ∧ circuitState s' = HALF_OPEN
    ∧ ∀ now, canProceed P now s' = Some (true, s').
Proof.
  revert s c. induction n as [| n IH]; intros s c Hst Hc Hlt.
  - exists s. rewrite Z.add_0_r. repeat split; [by rewrite insert_id | done |].
    intros now. by apply canProceed_half_open.
  - cbn [recordSuccesses]. unfold mbind, M_bind.
    rewrite (recordSuccess_run _ _ _ (numberAt_lookup _ _ _ Hc)), Hst, strict_eq_true.
    cbn [nullish]. cbn zeta.
    replace (_ <=? c + 1) with false by (symmetry; apply Z.leb_gt; lia).
    destruct (IH (<["successCount" := VNum (c + 1)]> s) (c + 1))
      as (s' & Hrun & Hs' & Hst' & Hcp).
    + by rewrite circuitState_insert_ne.
    + by simplify_map_eq.
    + lia.
    + exists s'. repeat split; [done | | done | done].
      rewrite Hs', insert_insert_eq. do 2 f_equal. lia.
Qed.

Lemma half_open_successes_below_witness :
  ∃ s', recordSuccesses (props exampleBreaker) 1 exampleHalfOpen = Some (tt, s')
    ∧ s' = <["successCount" := VNum (0 + Z.of_nat 1)]> exampleHalfOpen
    ∧ circuitState s' = HALF_OPEN
    ∧ ∀ now, canProceed (props exampleBreaker) now s' = Some (true, s').
Proof.
  apply (half_open_successes_below (props exampleBreaker) 1 exampleHalfOpen 0);
    reflexivity.
Defined.

(** ** A full cycle *)

Lemma recordFailures_rtc P ts (s s' : State) :
  recordFailures P ts s = Some (tt, s') → rtc (step P) s s'.
Proof.
  revert s. induction ts as [| [now nowOpen] ts IH]; intros s H.
  - cbn in H. unfold mret, M_ret in H. simplify_eq. apply rtc_refl.
  - cbn [recordFailures] in H. unfold mbind, M_bind in H.
    destruct (recordFailure P now nowOpen s) as [[[] s1] |] eqn:E; [| done].
    eapply rtc_l; [by apply (step_recordFailure _ _ _ now nowOpen) | by apply IH].
Qed.

Lemma recordSuccesses_rtc P n (s s' : State) :
  recordSuccesses P n s = Some (tt, s') → rtc (step P) s s'.
Proof.
  revert s. induction n as [| n IH]; intros s H.
  - cbn in H. unfold mret, M_ret in H. simplify_eq. apply rtc_refl.
  - cbn [recordSuccesses] in H. unfold mbind, M_bind in H.
    destruct (recordSuccess P s) as [[[] s1] |] eqn:E; [| done].
    eapply rtc_l; [by apply step_recordSuccess | by apply IH].
Qed.

(** X13. A whole cycle brings the store back to where it started.  A new
    breaker takes [failureThreshold] failures, the last one opening it at
    clock reading [tOpen]; once [timeoutMs] has elapsed [canProceed] answers
    [true] and the breaker is HALF_OPEN; after [halfOpenSuccessThreshold]
    successes the store is exactly the one [create] built. *)
Theorem recovery_cycle (d : string → string) (cfg : CircuitBreakerConfig)
    (ts0 : list (Z * Z)) (t tOpen now : Z) (n : nat) :
  let cb := create_with d cfg in
  Z.of_nat (length ts0) + 1 = failureThreshold (props cb) →
  tOpen ≠ 0 →
  timeoutMs (props cb) ≤ now - tOpen →
  0 < halfOpenSuccessThreshold (props cb) →
  Z.of_nat n = halfOpenSuccessThreshold (props cb) →
  ∃ s1 s2,
    recordFailures (props cb) (ts0 ++ [(t, tOpen)]) (state cb) = Some (tt, s1)
    ∧ circuitState s1 = OPEN
    ∧ canProceed (props cb) now s1 = Some (true, s2)
    ∧ circuitState s2 = HALF_OPEN
    ∧ recordSuccesses (props cb) n s2 = Some (tt, state cb).
Proof.
  intros cb Hlen Ht0 Hel Hpos Hn.
  destruct (recordFailures_below (props cb) ts0 (state cb) 0)
    as (s0 & Hrun0 & Hst0 & Hf0); [done | done | lia |].
  set (s1 := opened tOpen (failureNoted t (Some (0 + Z.of_nat (length ts0))) s0)).
  set (s2 := <["successCount" := VNum 0]> (<["state" := HALF_OPEN]> s1)).
  assert (recordFailures (props cb) (ts0 ++ [(t, tOpen)]) (state cb) = Some (tt, s1))
    as Hrun1.
  { rewrite recordFailures_app, Hrun0. cbn [recordFailures]. unfold mbind, M_bind.
    rewrite (recordFailure_run _ _ _ _ _ (numberAt_failures _ _ Hf0)), Hst0.
    cbn [nullish]. rewrite strict_eq_false by done.
    replace (_ <=? _) with true by (symmetry; apply Z.leb_le; lia).
    reflexivity. }
  assert (circuitState s1 = OPEN) as Hst1 by (subst s1; views; done).
  assert (canProceed (props cb) now s1 = Some (true, s2)) as Hcp.
  { rewrite (canProceed_run _ _ _ (Some tOpen)) by (subst s1; views; done).
    rewrite Hst1, strict_eq_false, strict_eq_true by done. cbn [truthy nullish].
    replace (tOpen =? 0) with false by (symmetry; by apply Z.eqb_neq).
    replace (_ <=? now - tOpen) with true by (symmetry; by apply Z.leb_le).
    reflexivity. }
  assert (circuitState s2 = HALF_OPEN) as Hst2 by (subst s2; views; done).
  destruct (recordSuccesses_half_open (props cb) n s2 (Some 0))
    as (s3 & Hrun3 & Hreset);
    [done | subst s2; apply numberAt_insert | lia | cbn [nullish]; lia |].
  exists s1, s2. repeat split; try done.
  rewrite Hrun3. do 2 f_equal.
  apply fullyReset_initial; [done |].
  apply reachable_frame. unfold reachable.
  eapply rtc_trans; [apply (recordFailures_rtc _ _ _ _ Hrun1) |].
  eapply rtc_l; [apply (step_canProceed _ _ _ now true Hcp) |].
  apply (recordSuccesses_rtc _ _ _ _ Hrun3).
Qed.

Lemma recovery_cycle_witness :
  ∃ s1 s2,
    recordFailures (props exampleBreaker) ([(10, 10)] ++ [(11, 12)])
      (state exampleBreaker) = Some (tt, s1)
    ∧ circuitState s1 = OPEN
    ∧ canProceed (props exampleBreaker) 200 s1 = Some (true, s2)
    ∧ circuitState s2 = HALF_OPEN
    ∧ recordSuccesses (props exampleBreaker) 2 s2 = Some (tt, state exampleBreaker).
Proof.
  apply (recovery_cycle safeId exampleConfig [(10, 10)] 11 12 200 2);
    first [reflexivity | lia | (cbn; lia)].
Defined.

(** ** Construction and edge configurations *)

(** X14. A breaker made by [create], with either identifier derivation:
    [getStats] reports the url, CLOSED, zero counters and null timestamps,
    with 5, 30000 and 1 for the options left out of the configuration;
    [canProceed] answers [true]; and the unit id is the store identifier
    under the prefix [circuit-breaker-]. *)
Theorem create_fresh (d : string → string) (cfg : CircuitBreakerConfig) :
  let cb := create_with d cfg in
  getStats (props cb) (state cb)
  = Some ({| stat_url := cfg_url cfg;
             stat_state := CLOSED;
             stat_failures := VNum 0;
             stat_lastFailure := Some VNull;
             stat_successCount := VNum 0;
             stat_openedAt := Some VNull;
             stat_failureThreshold := nullish (cfg_failureThreshold cfg) 5;
             stat_timeoutMs := nullish (cfg_timeoutMs cfg) 30000;
             stat_halfOpenSuccessThreshold :=
               nullish (cfg_halfOpenSuccessThreshold cfg) 1 |}, state cb)
  ∧ (∀ now, canProceed (props cb) now (state cb) = Some (true, state cb))
  ∧ dna_id (props cb) = "circuit-breaker-" +:+ stateId cb
  ∧ stateId cb = d (cfg_url cfg).
Proof.
  intros cb. split; [reflexivity |]. split; [| done].
  intros now. by apply canProceed_closed.
Qed.

(** X15. A threshold of 1 or less, zero and negative values included, is
    taken as it is: the breaker starts CLOSED and its first failure opens
    it. *)
Theorem low_threshold_first_failure_opens (d : string → string)
    (cfg : CircuitBreakerConfig) (now nowOpen : Z) :
  let cb := create_with d cfg in
  failureThreshold (props cb) ≤ 1 →
  circuitState (state cb) = CLOSED
  ∧ ∃ s', recordFailure (props cb) now nowOpen (state cb) = Some (tt, s')
      ∧ circuitState s' = OPEN
      ∧ s' !! "failures" = Some (VNum 1)
      ∧ s' !! "openedAt" = Some (VNum nowOpen).
Proof.
  intros cb Hth. split; [done |]. eexists. split.
  - rewrite (recordFailure_run _ _ _ _ (Some 0)) by done.
    cbn [nullish]. replace (_ <=? 0 + 1) with true by (symmetry; apply Z.leb_le; lia).
    by rewrite orb_true_r.
  - views. done.
Qed.

Lemma low_threshold_first_failure_opens_witness :
  circuitState (state (create zeroThresholdConfig)) = CLOSED
  ∧ ∃ s', recordFailure (props (create zeroThresholdConfig)) 10 11
            (state (create zeroThresholdConfig)) = Some (tt, s')
      ∧ circuitState s' = OPEN
      ∧ s' !! "failures" = Some (VNum 1)
      ∧ s' !! "openedAt" = Some (VNum 11).
Proof.
  apply (low_threshold_first_failure_opens safeId zeroThresholdConfig 10 11).
  cbn. lia.
Defined.

(** X16. A store that lacks the [failures] key, or holds null under it,
    counts from 0: [recordFailure] writes 1 under [failures] and the clock
    reading under [lastFailure]. *)
Theorem recordFailure_missing_counter (P : CircuitBreakerProps) (now nowOpen : Z)
    (s : State) :
  absent (s !! "failures") →
  ∃ s', recordFailure P now nowOpen s = Some (tt, s')
    ∧ s' !! "failures" = Some (VNum 1)
    ∧ s' !! "lastFailure" = Some (VNum now).
Proof.
  intros Habs.
  assert (numberAt "failures" s = Some None) as Hn
    by (unfold numberAt; destruct Habs as [-> | ->]; done).
  eexists. split; [apply (recordFailure_run _ _ _ _ _ Hn) |].
  destruct (_ || _); views; done.
Qed.

Lemma recordFailure_missing_counter_witness :
  ∃ s', recordFailure (props exampleBreaker) 10 11 ∅ = Some (tt, s')
    ∧ s' !! "failures" = Some (VNum 1)
    ∧ s' !! "lastFailure" = Some (VNum 10).
Proof.
  apply (recordFailure_missing_counter (props exampleBreaker) 10 11 ∅).
  left. reflexivity.
Defined.

(** ** The hash of [safeId] *)

Lemma toInt32_range (z : Z) : - 2 ^ 31 ≤ toInt32 z < 2 ^ 31.
Proof.
  unfold toInt32. pose proof (Z.mod_pos_bound (z + 2 ^ 31) (2 ^ 32)). lia.
Qed.

Lemma toInt32_shift (z k : Z) : toInt32 (z + k * 2 ^ 32) = toInt32 z.
Proof.
  unfold toInt32. f_equal.
  replace (z + k * 2 ^ 32 + 2 ^ 31) with (z + 2 ^ 31 + k * 2 ^ 32) by lia.
  apply Z_mod_plus_full.
Qed.

Lemma toInt32_spec (z : Z) : ∃ k, toInt32 z = z + k * 2 ^ 32.
Proof.
  exists (- ((z + 2 ^ 31) / 2 ^ 32)). unfold toInt32.
  pose proof (Z.div_mod (z + 2 ^ 31) (2 ^ 32)). lia.
Qed.

Lemma toInt32_small (z : Z) : - 2 ^ 31 ≤ z < 2 ^ 31 → toInt32 z = z.
Proof. intros H. unfold toInt32. rewrite Z.mod_small; lia. Qed.

Lemma toInt32_idem (z : Z) : toInt32 (toInt32 z) = toInt32 z.
Proof. apply toInt32_small, toInt32_range. Qed.

Lemma hashStep_mod (hash char : Z) :
  hashStep hash char = toInt32 (31 * hash + char).
Proof.
  unfold hashStep, and32, shl32. cbn zeta.
  rewrite Z.land_diag, toInt32_idem, Z.shiftl_mul_pow2 by lia.
  destruct (toInt32_spec hash) as [k1 Hk1]. rewrite Hk1.
  destruct (toInt32_spec ((hash + k1 * 2 ^ 32) * 2 ^ 5)) as [k2 Hk2]. rewrite Hk2.
  replace ((hash + k1 * 2 ^ 32) * 2 ^ 5 + k2 * 2 ^ 32 - hash + char)
    with (31 * hash + char + (32 * k1 + k2) * 2 ^ 32) by lia.
  apply toInt32_shift.
Qed.

Lemma hashStep_range (hash char : Z) : - 2 ^ 31 ≤ hashStep hash char < 2 ^ 31.
Proof. unfold hashStep, and32. apply toInt32_range. Qed.

Lemma hashFold_range (units : list Z) (h : Z) :
  - 2 ^ 31 ≤ h < 2 ^ 31 → - 2 ^ 31 ≤ fold_left hashStep units h < 2 ^ 31.
Proof.
  revert h. induction units as [| c units IH]; intros h Hh; [done |].
  cbn [fold_left]. apply IH, hashStep_range.
Qed.

Lemma hashLoop_range (units : list Z) : - 2 ^ 31 ≤ hashLoop units < 2 ^ 31.
Proof. apply hashFold_range. lia. Qed.

(** X17. The loop of [safeId] computes the classic multiply-by-31 string
    hash on signed 32-bit integers: the hash of no code unit is 0, the hash
    of a url followed by one more code unit is 31 times the hash of the
    url, plus the unit, wrapped to 32 bits, and every hash lies in the
    signed 32-bit range. *)
Theorem hashLoop_31 (units : list Z) (char : Z) :
  hashLoop [] = 0
  ∧ hashLoop (units ++ [char]) = toInt32 (31 * hashLoop units + char)
  ∧ - 2 ^ 31 ≤ hashLoop units < 2 ^ 31.
Proof.
  split; [reflexivity |]. split; [| apply hashLoop_range].
  unfold hashLoop. rewrite fold_left_app. cbn [fold_left]. apply hashStep_mod.
Qed.

Lemma of_lu_hexDigitOf (m : N) (u : Hexadecimal.uint) :
  (m < 16)%N → Unsigned.of_lu (hexDigitOf m u) = (m + 16 * Unsigned.of_lu u)%N.
Proof.
  intros Hm. destruct m as [| p]; [reflexivity |].
  do 4 (destruct p as [p | p |]; try reflexivity); lia.
Qed.

Lemma of_lu_lowDigits (k : nat) (n : N) :
  Unsigned.of_lu (lowDigits k n) = (n mod 16 ^ N.of_nat k)%N.
Proof.
  revert n. induction k as [| k IH]; intros n.
  - cbn. by rewrite N.mod_1_r.
  - cbn [lowDigits]. rewrite of_lu_hexDigitOf by (apply N.mod_lt; lia).
    rewrite IH, Nat2N.inj_succ, N.pow_succ_r', N.Div0.mod_mul_r. reflexivity.
Qed.

Lemma nb_digits_hexDigitOf (m : N) (u : Hexadecimal.uint) :
  nb_digits (hexDigitOf m u) = S (nb_digits u).
Proof.
  destruct m as [| p]; [reflexivity |].
  do 4 (destruct p as [p | p |]; try reflexivity).
Qed.

Lemma nb_digits_lowDigits (k : nat) (n : N) : nb_digits (lowDigits k n) = k.
Proof.
  revert n. induction k as [| k IH]; intros n; [done |].
  cbn [lowDigits]. by rewrite nb_digits_hexDigitOf, IH.
Qed.

(** A number below [16 ^ k] prints with at most [k] digits. *)
Lemma nb_digits_to_hex_uint (k : nat) (n : N) :
  (0 < k)%nat → (n < 16 ^ N.of_nat k)%N →
  (nb_digits (N.to_hex_uint n) ≤ k)%nat.
Proof.
  intros Hk Hn.
  assert (N.of_hex_uint (Hexadecimal.rev (lowDigits k n)) = n) as Hval.
  { unfold N.of_hex_uint. rewrite Unsigned.of_lu_rev, of_lu_lowDigits.
    by apply N.mod_small. }
  rewrite <- Hval at 1. rewrite HexadecimalN.Unsigned.to_of.
  etrans; [apply nb_digits_unorm |].
  - apply nb_digits_n0. rewrite nb_digits_rev, nb_digits_lowDigits. lia.
  - by rewrite nb_digits_rev, nb_digits_lowDigits.
Qed.

Lemma length_string_of_uint (u : Hexadecimal.uint) :
  String.length (NilEmpty.string_of_uint u) = nb_digits u.
Proof. induction u; cbn [NilEmpty.string_of_uint String.length nb_digits]; by rewrite ?IHu. Qed.

Lemma length_toString16 (n : Z) :
  0 ≤ n < 2 ^ 32 → (1 ≤ String.length (toString16 n) ≤ 8)%nat.
Proof.
  intros Hn. unfold toString16, NilZero.string_of_uint.
  pose proof (nb_digits_to_hex_uint 8 (Z.to_N n) ltac:(lia) ltac:(cbn; lia)) as Hle.
  destruct (N.to_hex_uint (Z.to_N n)) eqn:E; rewrite <- ?E;
    rewrite ?length_string_of_uint; rewrite ?E; cbn [nb_digits String.length] in *; lia.
Qed.

Lemma length_append (s1 s2 : string) :
  String.length (s1 +:+ s2) = (String.length s1 + String.length s2)%nat.
Proof.
  induction s1 as [| c s1 IH]; [done |].
  change (String c s1 +:+ s2) with (String c (s1 +:+ s2)).
  cbn [String.length]. by rewrite IH.
Qed.

Lemma length_padStart (n : nat) (c : ascii) (s : string) :
  String.length (padStart n c s) = (n `max` String.length s)%nat.
Proof.
  unfold padStart. rewrite length_append.
  assert (∀ k, String.length (string_of_list_ascii (repeat c k)) = k) as ->.
  { induction k as [| k IH]; [done |]. cbn. by rewrite IH. }
  lia.
Qed.

(** X18. Whatever the code units of the url, the identifier of [safeId] is
    eight characters long and each of them is one of [0-9a-f]. *)
Theorem safeId_units_shape (units : list Z) :
  String.length (safeId_units units) = 8%nat
  ∧ allChars isHexDigit (safeId_units units) = true.
Proof.
  split; [| apply safeId_units_hex].
  unfold safeId_units. cbn zeta. rewrite length_padStart.
  pose proof (hashLoop_range units).
  pose proof (length_toString16 (Z.abs (hashLoop units)) ltac:(lia)). lia.
Qed.

(** Folding [units] into a hash [h] is affine in [h], up to wrap-around. *)
Lemma hashFold_affine (units : list Z) (h : Z) :
  toInt32 (fold_left hashStep units h)
  = toInt32 (31 ^ Z.of_nat (length units) * h + hashLoop units).
Proof.
  revert h. induction units as [| c units IH]; intros h.
  - cbn. f_equal. lia.
  - unfold hashLoop. cbn [fold_left length]. rewrite IH.
    pose proof (IH (hashStep 0 c)) as IH0.
    rewrite (toInt32_small (fold_left _ _ _)) in IH0
      by apply hashFold_range, hashStep_range.
    rewrite IH0. rewrite !hashStep_mod. fold (hashLoop units).
    set (a := 31 ^ Z.of_nat (length units)).
    replace (31 ^ Z.of_nat (S (length units))) with (31 * a)
      by (subst a; rewrite Nat2Z.inj_succ, Z.pow_succ_r by lia; done).
    destruct (toInt32_spec (31 * h + c)) as [k1 ->].
    destruct (toInt32_spec (31 * 0 + c)) as [k2 ->].
    destruct (toInt32_spec (a * (31 * 0 + c + k2 * 2 ^ 32) + hashLoop units))
      as [k3 ->].
    replace (a * (31 * h + c + k1 * 2 ^ 32) + hashLoop units)
      with (31 * a * h
            + (a * (31 * 0 + c + k2 * 2 ^ 32) + hashLoop units + k3 * 2 ^ 32)
            + (a * k1 - a * k2 - k3) * 2 ^ 32) by lia.
    apply toInt32_shift.
Qed.

Lemma charCodes_append (s1 s2 : string) :
  charCodes (s1 +:+ s2) = charCodes s1 ++ charCodes s2.
Proof.
  induction s1 as [| c s1 IH]; [done |].
  change (String c s1 +:+ s2) with (String c (s1 +:+ s2)).
  unfold charCodes in *. cbn [list_ascii_of_string map]. by rewrite IH.
Qed.

Lemma length_charCodes (s : string) : length (charCodes s) = String.length s.
Proof.
  unfold charCodes. rewrite length_map.
  induction s as [| c s IH]; [done |]. cbn. by rewrite IH.
Qed.

(** X19. Collisions of [safeId] come in families: two pieces of text of
    the same length with the same hash can be swapped inside any url
    without changing the identifier. *)
Theorem safeId_collision_family (p u1 u2 q : string) :
  String.length u1 = String.length u2 →
  hashLoop (charCodes u1) = hashLoop (charCodes u2) →
  safeId (p +:+ u1 +:+ q) = safeId (p +:+ u2 +:+ q).
Proof.
  intros Hlen Hhash. unfold safeId, safeId_units. cbn zeta. do 3 f_equal.
  rewrite !charCodes_append. unfold hashLoop. rewrite !fold_left_app.
  f_equal. fold (hashLoop (charCodes p)).
  set (hp := hashLoop (charCodes p)).
  assert (- 2 ^ 31 ≤ hp < 2 ^ 31) as Hhp by apply hashLoop_range.
  rewrite <- (toInt32_small _ (hashFold_range (charCodes u1) hp Hhp)).
  rewrite <- (toInt32_small _ (hashFold_range (charCodes u2) hp Hhp)).
  by rewrite !hashFold_affine, !length_charCodes, Hlen, Hhash.
Qed.

Lemma safeId_collision_family_witness :
  safeId ("https://api.example.com/" +:+ "Aa" +:+ "/health")
  = safeId ("https://api.example.com/" +:+ "BB" +:+ "/health").
Proof.
  apply (safeId_collision_family "https://api.example.com/" "Aa" "BB" "/health");
    reflexivity.
Defined.

(** ** The inline identifier *)

(** X20. The inline derivation does not see the scheme: a url with
    [http://] in front and the same url with [https://] in front get the
    same identifier, the one of the text that follows the scheme. *)
Theorem inlineSafeId_scheme_blind (rest : string) :
  inlineSafeId ("http://" +:+ rest) = inlineSafeId ("https://" +:+ rest)
  ∧ inlineSafeId ("http://" +:+ rest)
    = "circuit-" +:+ trimDashes (collapseDashes (replaceNonAlnum rest)).
Proof. split; reflexivity. Qed.

Lemma startsWithDash_collapseDashes (s : string) :
  startsWithDash (collapseDashes s) = startsWithDash s.
Proof.
  induction s as [| c s IH]; [done |].
  cbn [collapseDashes]. destruct s as [| d s']; [done |].
  destruct (Ascii.eqb c "-") eqn:Ec; cbn [andb]; [| by cbn; rewrite Ec].
  destruct (Ascii.eqb d "-") eqn:Ed; [| by cbn; rewrite Ec].
  rewrite IH. cbn. by rewrite Ec, Ed.
Qed.

Lemma hasDoubleDash_collapseDashes (s : string) :
  hasDoubleDash (collapseDashes s) = false.
Proof.
  induction s as [| c s IH]; [done |].
  cbn [collapseDashes]. destruct s as [| d s']; [cbn; by rewrite andb_false_r |].
  destruct (Ascii.eqb c "-" && Ascii.eqb d "-") eqn:E; [done |].
  cbn [hasDoubleDash]. rewrite IH, startsWithDash_collapseDashes. cbn [startsWithDash].
  by rewrite E.
Qed.

Lemma dropTrailingDash_empty (s : string) :
  dropTrailingDash s = EmptyString → s = EmptyString ∨ s = "-"%string.
Proof.
  destruct s as [| c [| d s']]; cbn [dropTrailingDash]; [by left | | done].
  destruct (Ascii.eqb c "-") eqn:Ec; [| done].
  apply Ascii.eqb_eq in Ec as ->. by right.
Qed.

Lemma dropTrailingDash_normal (s : string) :
  hasDoubleDash s = false →
  hasDoubleDash (dropTrailingDash s) = false
  ∧ endsWithDash (dropTrailingDash s) = false
  ∧ (startsWithDash s = false → startsWithDash (dropTrailingDash s) = false).
Proof.
  induction s as [| c s IH]; [done |].
  cbn [hasDoubleDash]. intros [Hcd Hs]%orb_false_iff.
  destruct (IH Hs) as (IH1 & IH2 & IH3).
  cbn [dropTrailingDash]. destruct s as [| d s'].
  - destruct (Ascii.eqb c "-") eqn:Ec; [done |]. cbn. by rewrite Ec.
  - cbn [hasDoubleDash startsWithDash]. split; [| split; [| done]].
    + rewrite IH1, orb_false_r.
      destruct (Ascii.eqb c "-") eqn:Ec; [| done]. cbn [andb] in *.
      by apply IH3.
    + destruct (dropTrailingDash (String d s')) as [| e r'] eqn:Er; [| done].
      apply dropTrailingDash_empty in Er as [Er | Er]; simplify_eq.
      cbn in *. by rewrite andb_true_r in Hcd.
Qed.

(** X21. The inline identifier is [circuit-] followed by a body made of
    letters, digits and single dashes: the body has no two dashes in a row
    and neither starts nor ends with a dash. *)
Theorem inlineSafeId_normal (url : string) :
  ∃ body, inlineSafeId url = "circuit-" +:+ body
    ∧ allChars isIdChar body = true
    ∧ hasDoubleDash body = false
    ∧ startsWithDash body = false
    ∧ endsWithDash body = false.
Proof.
  exists (trimDashes (collapseDashes (replaceNonAlnum (replaceScheme url)))).
  split; [reflexivity |].
  split; [apply trimDashes_chars, collapseDashes_chars, replaceNonAlnum_chars |].
  pose proof (hasDoubleDash_collapseDashes (replaceNonAlnum (replaceScheme url))) as Hdd.
  revert Hdd. generalize (collapseDashes (replaceNonAlnum (replaceScheme url))) as s.
  intros s Hdd. unfold trimDashes. destruct s as [| c s']; [done |].
  destruct (Ascii.eqb c "-") eqn:Ec.
  - cbn [hasDoubleDash] in Hdd. rewrite Ec in Hdd. cbn [andb] in Hdd.
    apply orb_false_iff in Hdd as [Hstart Hdd].
    destruct (dropTrailingDash_normal s' Hdd) as (H1 & H2 & H3). auto.
  - destruct (dropTrailingDash_normal (String c s') Hdd) as (H1 & H2 & H3).
    repeat split; [done | | done]. apply H3. cbn. done.
Qed.

(** ** Leaving and re-entering OPEN *)

(** X22. An OPEN breaker reached from [create] always has a timestamp to
    wait on, and unless that timestamp is 0 it recovers: as soon as
    [timeoutMs] has elapsed since [openedAt], [canProceed] answers [true]
    and the state is HALF_OPEN with [successCount] 0. *)
Theorem reachable_open_recovers (d : string → string) (cfg : CircuitBreakerConfig)
    (s : State) (now : Z) :
  let cb := create_with d cfg in
  reachable cb s →
  circuitState s = OPEN →
  ∃ t, s !! "openedAt" = Some (VNum t)
    ∧ (t ≠ 0 → timeoutMs (props cb) ≤ now - t →
         ∃ s', canProceed (props cb) now s = Some (true, s')
           ∧ circuitState s' = HALF_OPEN
           ∧ s' !! "successCount" = Some (VNum 0)
           ∧ s' !! "openedAt" = Some (VNum t)).
Proof.
  intros cb Hr Hst.
  destruct (shape_reachable _ _ _ Hr)
    as [f Hst' Hf Hlf Hc Ho | f tl t Hst' Hf Hth Hpos Hlf Hc Ho
        | f tl t c Hst' Hf Hth Hpos Hlf Hc Hc0 Hcth Ho];
    rewrite (circuitState_lookup _ _ Hst') in Hst by done; try done.
  exists t. split; [done |]. intros Ht Hel. eexists. split.
  - rewrite (canProceed_run _ _ _ _ (numberAt_lookup _ _ _ Ho)).
    rewrite (circuitState_lookup _ _ Hst') by done.
    rewrite strict_eq_false, strict_eq_true by done. cbn [truthy nullish].
    replace (t =? 0) with false by (symmetry; by apply Z.eqb_neq).
    replace (_ <=? now - t) with true by (symmetry; by apply Z.leb_le).
    reflexivity.
  - views. done.
Qed.

Lemma reachable_open_recovers_witness :
  ∃ t, exampleOpen !! "openedAt" = Some (VNum t)
    ∧ (t ≠ 0 → timeoutMs (props (create_with safeId exampleConfig)) ≤ 200 - t →
         ∃ s', canProceed (props (create_with safeId exampleConfig)) 200 exampleOpen
               = Some (true, s')
           ∧ circuitState s' = HALF_OPEN
           ∧ s' !! "successCount" = Some (VNum 0)
           ∧ s' !! "openedAt" = Some (VNum t)).
Proof.
  apply (reachable_open_recovers safeId exampleConfig exampleOpen 200).
  - apply exampleOpen_reachable.
  - reflexivity.
Defined.

(** X23. A failure during probation blocks again: after [recordFailure]
    on a HALF_OPEN breaker, [canProceed] answers [false] without writing
    for as long as less than [timeoutMs] has elapsed since the clock
    reading of that failure. *)
Theorem half_open_failure_blocks (P : CircuitBreakerProps) (now nowOpen : Z)
    (s : State) (f : option Z) :
  circuitState s = HALF_OPEN →
  numberAt "failures" s = Some f →
  ∃ s', recordFailure P now nowOpen s = Some (tt, s')
    ∧ ∀ now', now' - nowOpen < timeoutMs P →
        canProceed P now' s' = Some (false, s').
Proof.
  intros Hst Hf. eexists. split.
  - rewrite (recordFailure_run _ _ _ _ _ Hf), Hst, strict_eq_true. reflexivity.
  - intros now' Hel.
    rewrite (canProceed_run _ _ _ (Some nowOpen)) by (views; done).
    replace (circuitState _) with OPEN by (views; done).
    rewrite strict_eq_false, strict_eq_true by done. cbn [nullish].
    replace (_ <=? now' - nowOpen) with false by (symmetry; apply Z.leb_gt; lia).
    by rewrite andb_false_r.
Qed.

Lemma half_open_failure_blocks_witness :
  ∃ s', recordFailure (props exampleBreaker) 300 301 exampleHalfOpen = Some (tt, s')
    ∧ ∀ now', now' - 301 < timeoutMs (props exampleBreaker) →
        canProceed (props exampleBreaker) now' s' = Some (false, s').
Proof.
  apply (half_open_failure_blocks (props exampleBreaker) 300 301 exampleHalfOpen (Some 2));
    reflexivity.
Defined.
